(** * The article store of the SEO agent (mcp_servers/articles_server.py)

    A shallow embedding of the article store and of its slug generator.

    Conventions of the model.
    - A Python [str] is a [string] whose characters are the code points
      0..255; [str.lower], the regex classes [\w] and [\s] and the
      escapes of [repr] and [json.dumps] are Python's on that range.
    - A parsed JSON document is a [json] value; JSON numbers are integers.
    - The storage directory is the list of its entries in the order in
      which the file system enumerates them.
    - [datetime.now()] is an argument of the operation that reads it.
    - The storage directory exists and can be written; [open] creates a
      file when its name and its path fit the limits of the file system
      (Linux: 255 bytes for a name, less than 4096 for a path, in UTF-8),
      and raises [OSError] otherwise. *)

From Stdlib Require Import Bool Arith ZArith Lia List Ascii String.
From Stdlib Require Import Permutation DecimalString.
Import ListNotations.

Local Open Scope list_scope.
Local Open Scope string_scope.

(** ** Characters *)

Definition code (c : ascii) : nat := nat_of_ascii c.

Definition between (lo hi : nat) (c : ascii) : bool :=
  ((lo <=? code c) && (code c <=? hi))%nat.

(** [Py_UNICODE_ISALNUM]: alphabetic, decimal, digit or numeric. *)
Definition isalnum (c : ascii) : bool :=
  between 48 57 c || between 65 90 c || between 97 122 c
  || between 170 170 c || between 178 179 c || between 181 181 c
  || between 185 186 c || between 188 190 c || between 192 214 c
  || between 216 246 c || between 248 255 c.

(** The regex category [\w] of a [str] pattern. *)
Definition is_word (c : ascii) : bool := isalnum c || (c =? "_")%char.

(** The regex category [\s] of a [str] pattern ([Py_UNICODE_ISSPACE]). *)
Definition is_space (c : ascii) : bool :=
  between 9 13 c || between 28 32 c || between 133 133 c || between 160 160 c.

Definition lower_char (c : ascii) : ascii :=
  if between 65 90 c || (between 192 222 c && negb (code c =? 215)%nat)
  then ascii_of_nat (code c + 32)
  else c.

(** ** [str] methods *)

(** [str.lower] on the code points 0..255, where it lowers each character
    by itself and keeps the length.  (Beyond that range it does not: a
    capital sigma is lowered by its place in the word, and U+0130 to two
    characters.) *)
Fixpoint lower (s : string) : string :=
  match s with
  | EmptyString => EmptyString
  | String c r => String (lower_char c) (lower r)
  end.

Fixpoint contains (c : ascii) (chars : string) : bool :=
  match chars with
  | EmptyString => false
  | String d r => (c =? d)%char || contains c r
  end.

Fixpoint rev (s : string) : string :=
  match s with
  | EmptyString => EmptyString
  | String c r => rev r ++ String c EmptyString
  end.

Fixpoint lstrip (chars s : string) : string :=
  match s with
  | EmptyString => EmptyString
  | String c r => if contains c chars then lstrip chars r else s
  end.

Definition rstrip (chars s : string) : string := rev (lstrip chars (rev s)).

(** [s.strip(chars)] *)
Definition strip (chars s : string) : string := rstrip chars (lstrip chars s).

Fixpoint take (n : nat) (s : string) : string :=
  match n, s with
  | S n', String c r => String c (take n' r)
  | _, _ => EmptyString
  end.

Fixpoint endswith (s suffix : string) : bool :=
  (s =? suffix) ||
  match s with
  | EmptyString => false
  | String _ r => endswith r suffix
  end.

(** ** The fragment of [re] that the store uses *)

Inductive class_item : Type :=
| Word                (* \w *)
| Space               (* \s *)
| Lit (c : ascii).    (* a literal character *)

Definition item_matches (i : class_item) (c : ascii) : bool :=
  match i with
  | Word => is_word c
  | Space => is_space c
  | Lit d => (c =? d)%char
  end.

(** A character set [[...]] or [[^...]]. *)
Record charset : Type := Charset { negated : bool; items : list class_item }.

Definition charset_matches (cs : charset) (c : ascii) : bool :=
  xorb (negated cs) (existsb (fun i => item_matches i c) (items cs)).

Inductive regex : Type :=
| One (cs : charset)      (* a single character of the set *)
| Many (cs : charset).    (* the set followed by [+], greedy *)

Fixpoint skip_while (p : ascii -> bool) (s : string) : string :=
  match s with
  | EmptyString => EmptyString
  | String c r => if p c then skip_while p r else s
  end.

(** The match that starts at the head of [s], if any: what is left of [s]
    after it. *)
Definition match_at (re : regex) (s : string) : option string :=
  match s with
  | EmptyString => None
  | String c r =>
      match re with
      | One cs => if charset_matches cs c then Some r else None
      | Many cs =>
          if charset_matches cs c
          then Some (skip_while (charset_matches cs) r)
          else None
      end
  end.

(** Leftmost non-overlapping substitution.  A match takes at least one
    character, so [length s] steps always reach the end of [s]. *)
Fixpoint re_sub_steps (steps : nat) (re : regex) (repl s : string) : string :=
  match steps with
  | O => s
  | S n =>
      match s with
      | EmptyString => EmptyString
      | String c r =>
          match match_at re s with
          | Some rest => repl ++ re_sub_steps n re repl rest
          | None => String c (re_sub_steps n re repl r)
          end
      end
  end.

(** [re.sub(pattern, repl, s)] *)
Definition re_sub (re : regex) (repl s : string) : string :=
  re_sub_steps (length s) re repl s.

(** ** [slugify] *)

Definition hyphen : ascii := "-"%char.

(** r"[^\w\s-]" *)
Definition not_word_space_hyphen : regex :=
  One (Charset true [Word; Space; Lit hyphen]).

(** r"\s+" *)
Definition whitespace_run : regex := Many (Charset false [Space]).

(** r"-+" *)
Definition hyphen_run : regex := Many (Charset false [Lit hyphen]).

Definition slugify (text : string) : string :=
  let text := lower text in
  let text := re_sub not_word_space_hyphen "" text in
  let text := re_sub whitespace_run "-" text in
  let text := re_sub hyphen_run "-" text in
  strip "-" text.


(** ** Numbers as text *)

(** [str(n)] of an [int] *)
Definition str_of_int (n : Z) : string :=
  DecimalString.NilZero.string_of_int (Z.to_int n).

Definition digit (n : Z) : ascii := ascii_of_N (Z.to_N (48 + n)).

(** ["%0wd" % n] for [n >= 0]: the decimal digits of [n], zero-padded on
    the left to at least [w] characters. *)
Fixpoint zero_padded (w : nat) (n : Z) : string :=
  match w with
  | O => if (n =? 0)%Z then "" else str_of_int n
  | S w' => zero_padded w' (n / 10) ++ String (digit (n mod 10)) ""
  end.

Definition hex_digit (n : nat) : ascii :=
  if (n <? 10)%nat then ascii_of_nat (48 + n) else ascii_of_nat (87 + n).

Definition hex2 (c : ascii) : string :=
  String (hex_digit (code c / 16)) (String (hex_digit (code c mod 16)) "").

(** ** [datetime] *)

Record datetime : Type := Datetime {
  year : Z; month : Z; day : Z;
  hour : Z; minute : Z; second : Z; microsecond : Z
}.

(** The ranges of a [datetime] object, for the years that have four
    digits. *)
Definition valid_datetime (t : datetime) : bool :=
  ((1000 <=? year t) && (year t <=? 9999)
   && (1 <=? month t) && (month t <=? 12)
   && (1 <=? day t) && (day t <=? 31)
   && (0 <=? hour t) && (hour t <? 24)
   && (0 <=? minute t) && (minute t <? 60)
   && (0 <=? second t) && (second t <? 60)
   && (0 <=? microsecond t) && (microsecond t <? 1000000))%Z.

(** [t.strftime('%Y%m%d%H%M%S')] *)
Definition strftime_YmdHMS (t : datetime) : string :=
  zero_padded 4 (year t) ++ zero_padded 2 (month t) ++ zero_padded 2 (day t)
  ++ zero_padded 2 (hour t) ++ zero_padded 2 (minute t)
  ++ zero_padded 2 (second t).

(** [t.isoformat()] of a naive [datetime]: the microseconds are left out
    when they are zero. *)
Definition isoformat (t : datetime) : string :=
  zero_padded 4 (year t) ++ "-" ++ zero_padded 2 (month t) ++ "-"
  ++ zero_padded 2 (day t) ++ "T" ++ zero_padded 2 (hour t) ++ ":"
  ++ zero_padded 2 (minute t) ++ ":" ++ zero_padded 2 (second t)
  ++ (if (microsecond t =? 0)%Z then ""
      else "." ++ zero_padded 6 (microsecond t)).

(** ** JSON documents and the Python objects [json.load] makes of them *)

#[local] Set Warnings "-register-all".

Inductive json : Type :=
| JNull
| JBool (b : bool)
| JNum (n : Z)
| JStr (s : string)
| JArr (xs : list json)
| JObj (kvs : list (string * json)).

(** A [dict] with [str] keys, in insertion order. *)
Definition dict : Type := list (string * json).

(** [d.get(k)]: [None] stands for Python's [None] of a missing key. *)
Fixpoint dict_get (d : dict) (k : string) : option json :=
  match d with
  | [] => None
  | (k', v) :: r => if (k' =? k)%string then Some v else dict_get r k
  end.

(** [d[k] = v]: a present key keeps its place, a new key goes last. *)
Fixpoint dict_set (d : dict) (k : string) (v : json) : dict :=
  match d with
  | [] => [(k, v)]
  | (k', v') :: r =>
      if (k' =? k)%string then (k', v) :: r else (k', v') :: dict_set r k v
  end.

(** Truth value of an object, as [not x] and [x or y] test it. *)
Definition truthy (j : json) : bool :=
  match j with
  | JNull => false
  | JBool b => b
  | JNum n => negb (n =? 0)%Z
  | JStr s => negb (s =? "")%string
  | JArr xs => match xs with [] => false | _ => true end
  | JObj kvs => match kvs with [] => false | _ => true end
  end.

Definition truthy_opt (o : option json) : bool :=
  match o with
  | None => false
  | Some j => truthy j
  end.

(** [x == s] for a [str] [s]. *)
Definition eq_str (o : option json) (s : string) : bool :=
  match o with
  | Some (JStr s') => (s' =? s)%string
  | _ => false
  end.

Definition nl : string := String (ascii_of_nat 10) "".
Definition dquote : ascii := ascii_of_nat 34.
Definition squote : ascii := ascii_of_nat 39.
Definition backslash : ascii := ascii_of_nat 92.
Definition space : ascii := ascii_of_nat 32.

Fixpoint join (sep : string) (parts : list string) : string :=
  match parts with
  | [] => ""
  | [p] => p
  | p :: r => p ++ sep ++ join sep r
  end.

(** [str.isprintable] of one character. *)
Definition isprintable (c : ascii) : bool :=
  negb (between 0 31 c || between 127 160 c || between 173 173 c).

Definition repr_char (quote c : ascii) : string :=
  if (c =? backslash)%char then String backslash (String backslash "")
  else if (c =? quote)%char then String backslash (String quote "")
  else if (code c =? 9)%nat then String backslash "t"
  else if (code c =? 10)%nat then String backslash "n"
  else if (code c =? 13)%nat then String backslash "r"
  else if isprintable c then String c ""
  else String backslash ("x" ++ hex2 c).

Fixpoint repr_chars (quote : ascii) (s : string) : string :=
  match s with
  | EmptyString => EmptyString
  | String c r => repr_char quote c ++ repr_chars quote r
  end.

(** [repr(s)] of a [str]: double quotes only when [s] has a single quote
    and no double quote. *)
Definition repr_str (s : string) : string :=
  let quote :=
    if contains squote s && negb (contains dquote s) then dquote else squote in
  String quote (repr_chars quote s ++ String quote "").

(** [repr(x)] *)
Fixpoint repr (j : json) : string :=
  match j with
  | JNull => "None"
  | JBool b => if b then "True" else "False"
  | JNum n => str_of_int n
  | JStr s => repr_str s
  | JArr xs => "[" ++ join ", " (map repr xs) ++ "]"
  | JObj kvs =>
      "{" ++ join ", " (map (fun kv : string * json => let (k, v) := kv in
                                       repr_str k ++ ": " ++ repr v) kvs) ++ "}"
  end.

(** [str(x)], which an f-string applies to its fields. *)
Definition str (j : json) : string :=
  match j with
  | JStr s => s
  | _ => repr j
  end.

(** The escapes of [json.dumps] with [ensure_ascii]. *)
Definition json_char (c : ascii) : string :=
  if (c =? dquote)%char then String backslash (String dquote "")
  else if (c =? backslash)%char then String backslash (String backslash "")
  else if (code c =? 8)%nat then String backslash "b"
  else if (code c =? 9)%nat then String backslash "t"
  else if (code c =? 10)%nat then String backslash "n"
  else if (code c =? 12)%nat then String backslash "f"
  else if (code c =? 13)%nat then String backslash "r"
  else if between 32 126 c then String c ""
  else String backslash ("u00" ++ hex2 c).

Fixpoint json_chars (s : string) : string :=
  match s with
  | EmptyString => EmptyString
  | String c r => json_char c ++ json_chars r
  end.

Definition json_string (s : string) : string :=
  String dquote (json_chars s ++ String dquote "").

Fixpoint indentation (width level : nat) : string :=
  match level with
  | O => ""
  | S l => indentation width l ++ string_of_list_ascii (repeat space width)
  end.

(** The text of [j] nested [level] deep, as [json.dumps(_, indent=width)]
    lays it out. *)
Fixpoint dumps_at (width level : nat) (j : json) : string :=
  let inner := nl ++ indentation width (S level) in
  let close := nl ++ indentation width level in
  match j with
  | JNull => "null"
  | JBool b => if b then "true" else "false"
  | JNum n => str_of_int n
  | JStr s => json_string s
  | JArr [] => "[]"
  | JArr xs =>
      "[" ++ inner ++ join ("," ++ inner) (map (dumps_at width (S level)) xs)
      ++ close ++ "]"
  | JObj [] => "{}"
  | JObj kvs =>
      "{" ++ inner
      ++ join ("," ++ inner)
           (map (fun kv : string * json => let (k, v) := kv in
                           json_string k ++ ": " ++ dumps_at width (S level) v)
              kvs)
      ++ close ++ "}"
  end.

(** [json.dumps(j, indent=width)] *)
Definition json_dumps (width : nat) (j : json) : string := dumps_at width 0 j.

(** ** Exceptions *)

Inductive exn : Type :=
| JSONDecodeError
| AttributeError
| TypeError
| OSError.

(** What running a piece of code gives: a value, or a raised exception. *)
Inductive outcome (A : Type) : Type :=
| Return (a : A)
| Raise (e : exn).

Arguments Return {A} a.
Arguments Raise {A} e.

Definition bind {A B : Type} (c : outcome A) (k : A -> outcome B) : outcome B :=
  match c with
  | Return a => k a
  | Raise e => Raise e
  end.

Notation "x <- c ;; k" := (bind c (fun x => k))
  (at level 61, c at next level, right associativity).

Fixpoint for_each {A B : Type} (f : A -> outcome B) (l : list A)
  : outcome (list B) :=
  match l with
  | [] => Return []
  | a :: r => b <- f a ;; bs <- for_each f r ;; Return (b :: bs)
  end.

(** [x.get(k)]: only a [dict] has the method. *)
Definition get (x : json) (k : string) : outcome (option json) :=
  match x with
  | JObj d => Return (dict_get d k)
  | _ => Raise AttributeError
  end.

(** [x.get(k, default)] *)
Definition get_or (x : json) (k : string) (default : json) : outcome json :=
  v <- get x k ;;
  Return (match v with Some j => j | None => default end).

(** [x[k] = v] *)
Definition setitem (x : json) (k : string) (v : json) : outcome json :=
  match x with
  | JObj d => Return (JObj (dict_set d k v))
  | _ => Raise TypeError
  end.

(** [x[:n]]: a [str] and a [list] can be sliced. *)
Definition slice_to (n : nat) (x : json) : outcome json :=
  match x with
  | JStr s => Return (JStr (take n s))
  | JArr xs => Return (JArr (firstn n xs))
  | _ => Raise TypeError
  end.

(** ** The storage directory *)

(** A file holds text that [json.load] rejects (or cannot be opened), or
    the text of a JSON document; [json.dump] followed by [json.load]
    gives the document back. *)
Inductive file : Type :=
| Unparseable
| Document (j : json).

(** The entries of the directory, by name, in enumeration order. *)
Definition directory : Type := list (string * file).

Definition json_load (f : file) : outcome json :=
  match f with
  | Unparseable => Raise JSONDecodeError
  | Document j => Return j
  end.

Fixpoint read_file (d : directory) (name : string) : option file :=
  match d with
  | [] => None
  | (n, f) :: r => if (n =? name)%string then Some f else read_file r name
  end.

Definition names (d : directory) : list string := map fst d.

Fixpoint overwrite (name : string) (f : file) (d : directory) : directory :=
  match d with
  | [] => []
  | (n, f') :: r =>
      if (n =? name)%string then (n, f) :: r else (n, f') :: overwrite name f r
  end.

Definition insert_at (slot : nat) (e : string * file) (d : directory)
  : directory :=
  (firstn slot d ++ e :: skipn slot d)%list.

(** [p.unlink()] *)
Fixpoint unlink (name : string) (d : directory) : directory :=
  match d with
  | [] => []
  | (n, f) :: r => if (n =? name)%string then r else (n, f) :: unlink name r
  end.

(** [ARTICLES_DIR.glob("*.json")] *)
Definition glob_json (d : directory) : list (string * file) :=
  filter (fun e => endswith (fst e) ".json") d.

Fixpoint insert_desc (e : string * file) (l : list (string * file))
  : list (string * file) :=
  match l with
  | [] => [e]
  | x :: r =>
      if String.ltb (fst e) (fst x) then x :: insert_desc e r else e :: l
  end.

(** [sorted(paths, reverse=True)]: the paths of one directory compare as
    their names do, code point by code point; the sort is stable. *)
Definition sorted_reverse (l : list (string * file)) : list (string * file) :=
  fold_right insert_desc [] l.

(** [str(dir / name)], for [dir] the text of a path: "." is left out,
    and the roots "/" and "//" take no further slash. *)
Definition path_join (dir name : string) : string :=
  if (dir =? ".")%string then name
  else if endswith dir "/" then dir ++ name
  else dir ++ "/" ++ name.

(** The longest file name and the first path length that the file system
    refuses, in bytes. *)
Definition NAME_MAX : nat := 255.
Definition PATH_MAX : nat := 4096.

(** The number of bytes of [s] in UTF-8, the encoding of file names: two
    for a code point from 128 on. *)
Fixpoint utf8_length (s : string) : nat :=
  match s with
  | EmptyString => 0
  | String c r => (if (code c <? 128)%nat then 1 else 2) + utf8_length r
  end.

(** [open(path, "w")] goes ahead; otherwise it raises [OSError] ("File
    name too long") and creates nothing. *)
Definition can_open (path name : string) : bool :=
  ((utf8_length name <=? NAME_MAX) && (utf8_length path <? PATH_MAX))%nat.

(** ** The article store *)

Section Store.

(** [str(ARTICLES_DIR)] *)
Variable ARTICLES_DIR : string.

(** Where the file system lists a newly created entry. *)
Variable new_slot : directory -> string -> nat.

(** [open(path, "w")] followed by [json.dump]: an existing file is
    rewritten in full, a new one is created. *)
Definition write_file (name : string) (f : file) (d : directory) : directory :=
  match read_file d name with
  | Some _ => overwrite name f d
  | None => insert_at (new_slot d name) (name, f) d
  end.

Definition default_schema (title meta_description : string) : dict :=
  [("@context", JStr "https://schema.org");
   ("@type", JStr "Article");
   ("headline", JStr title);
   ("description", JStr meta_description)].

Definition new_article (article_id slug title content meta_description
    primary_keyword : string) (secondary_keywords : list string)
    (image_url : string) (schema_markup : option dict) (now : string) : dict :=
  [("id", JStr article_id);
   ("slug", JStr slug);
   ("title", JStr title);
   ("metaDescription", JStr meta_description);
   ("content", JStr content);
   ("primaryKeyword", JStr primary_keyword);
   ("secondaryKeywords", JArr (map JStr secondary_keywords));
   ("imageUrl", JStr image_url);
   ("imageAlt", JStr (title ++ " - Premium Gin and Tonic Guide"));
   ("schemaMarkup",
     JObj (match schema_markup with
           | Some (e :: m) => e :: m
           | _ => default_schema title meta_description
           end));
   ("status", JStr "published");
   ("createdAt", JStr now);
   ("publishedAt", JStr now)].

(** [clock1] and [clock2] are the two readings of [datetime.now()].  The
    result is what the call gives, and the directory after it. *)
Definition save_article (title content meta_description primary_keyword : string)
    (secondary_keywords : list string) (image_url : string)
    (schema_markup : option dict) (clock1 clock2 : datetime) (d : directory)
  : outcome string * directory :=
  let slug := slugify title in
  let article_id := slug ++ "-" ++ strftime_YmdHMS clock1 in
  let now := isoformat clock2 in
  let article :=
    new_article article_id slug title content meta_description primary_keyword
      secondary_keywords image_url schema_markup now in
  let file_name := article_id ++ ".json" in
  let file_path := path_join ARTICLES_DIR file_name in
  if can_open file_path file_name then
    let d := write_file file_name (Document (JObj article)) d in
    (Return ("Article saved successfully!" ++ nl ++ "ID: " ++ article_id ++ nl
             ++ "Slug: " ++ slug ++ nl ++ "Path: " ++ file_path), d)
  else (Raise OSError, d).

(** The body of the [try] of [get_articles]: the article to append, if
    the file passes the filter. *)
Definition get_articles_try (status : string) (f : file)
  : outcome (option json) :=
  article <- json_load f ;;
  if (status =? "all")%string then Return (Some article)
  else
    v <- get article "status" ;;
    if eq_str v status then Return (Some article) else Return None.

(** The [for] loop of [get_articles], from the list [articles] built so
    far. *)
Fixpoint get_articles_loop (status : string) (limit : Z)
    (paths : list (string * file)) (articles : list json) : list json :=
  match paths with
  | [] => articles
  | (_, f) :: rest =>
      match get_articles_try status f with
      | Return (Some article) =>
          let articles := (articles ++ [article])%list in
          if (Z.of_nat (List.length articles) >=? limit)%Z
          then articles                                    (* break *)
          else get_articles_loop status limit rest articles
      | Return None => get_articles_loop status limit rest articles
      | Raise _ => get_articles_loop status limit rest articles  (* continue *)
      end
  end.

(** The articles that [get_articles] lists. *)
Definition listed (status : string) (limit : Z) (d : directory) : list json :=
  get_articles_loop status limit (sorted_reverse (glob_json d)) [].

Definition summary (a : json) : outcome string :=
  status <- get_or a "status" (JStr "unknown") ;;
  title <- get_or a "title" (JStr "Untitled") ;;
  slug <- get_or a "slug" (JStr "N/A") ;;
  keyword <- get_or a "primaryKeyword" (JStr "N/A") ;;
  created <- get_or a "createdAt" (JStr "N/A") ;;
  created <- slice_to 10 created ;;
  Return ("- [" ++ str status ++ "] " ++ str title ++ nl
          ++ "  Slug: " ++ str slug ++ " | "
          ++ "Keyword: " ++ str keyword ++ nl
          ++ "  Created: " ++ str created).

Definition get_articles (status : string) (limit : Z) (d : directory)
  : outcome string :=
  let articles := listed status limit d in
  match articles with
  | [] => Return "No articles found."
  | _ =>
      lines <- for_each summary articles ;;
      Return (join nl
                (("Found " ++ str_of_int (Z.of_nat (List.length articles))
                  ++ " articles:" ++ nl) :: lines))
  end.

Definition not_found (slug : string) : string := "Article not found: " ++ slug.

(** The body of the [try] of [get_article]. *)
Definition get_article_try (slug : string) (f : file) : outcome (option string) :=
  article <- json_load f ;;
  v <- get article "slug" ;;
  if eq_str v slug then Return (Some (json_dumps 2 article)) else Return None.

Fixpoint get_article_loop (slug : string) (paths : list (string * file))
  : string :=
  match paths with
  | [] => not_found slug
  | (_, f) :: rest =>
      match get_article_try slug f with
      | Return (Some text) => text
      | Return None => get_article_loop slug rest
      | Raise _ => get_article_loop slug rest              (* continue *)
      end
  end.

Definition get_article (slug : string) (d : directory) : string :=
  get_article_loop slug (glob_json d).

(** The body of the [try] of [update_article_status], up to the write:
    the article to write back, if the slug matches. *)
Definition update_article_status_try (slug status : string) (clock : datetime)
    (f : file) : outcome (option json) :=
  article <- json_load f ;;
  v <- get article "slug" ;;
  if eq_str v slug then
    article <- setitem article "status" (JStr status) ;;
    published_at <- get article "publishedAt" ;;
    article <-
      (if (status =? "published")%string && negb (truthy_opt published_at)
       then setitem article "publishedAt" (JStr (isoformat clock))
       else Return article) ;;
    Return (Some article)
  else Return None.

Fixpoint update_article_status_loop (slug status : string) (clock : datetime)
    (d : directory) (paths : list (string * file)) : string * directory :=
  match paths with
  | [] => (not_found slug, d)
  | (file_path, f) :: rest =>
      match update_article_status_try slug status clock f with
      | Return (Some article) =>
          ("Article '" ++ slug ++ "' status updated to: " ++ status,
           write_file file_path (Document article) d)
      | Return None => update_article_status_loop slug status clock d rest
      | Raise _ => update_article_status_loop slug status clock d rest
      end
  end.

Definition update_article_status (slug status : string) (clock : datetime)
    (d : directory) : string * directory :=
  update_article_status_loop slug status clock d (glob_json d).

(** The body of the [try] of [delete_article]: whether the slug matches. *)
Definition delete_article_try (slug : string) (f : file) : outcome bool :=
  article <- json_load f ;;
  v <- get article "slug" ;;
  Return (eq_str v slug).

Fixpoint delete_article_loop (slug : string) (d : directory)
    (paths : list (string * file)) : string * directory :=
  match paths with
  | [] => (not_found slug, d)
  | (file_path, f) :: rest =>
      match delete_article_try slug f with
      | Return true => ("Article deleted: " ++ slug, unlink file_path d)
      | Return false => delete_article_loop slug d rest
      | Raise _ => delete_article_loop slug d rest         (* continue *)
      end
  end.

Definition delete_article (slug : string) (d : directory) : string * directory :=
  delete_article_loop slug d (glob_json d).

End Store.

(** ** The slug policy of the specification

    Section 4.1 gives the steps as policy: lowercase the input; strip the
    characters that are neither word characters, whitespace, nor hyphen;
    collapse runs of whitespace to a single hyphen; collapse runs of
    hyphens to one; trim leading and trailing hyphens.  [slugify_policy]
    follows these words on the characters of the text, without regular
    expressions. *)

Definition is_hyphen (c : ascii) : bool := (c =? hyphen)%char.

(** A character that the second step retains. *)
Definition retainable (c : ascii) : bool :=
  is_word c || is_space c || is_hyphen c.

Fixpoint keep (p : ascii -> bool) (s : string) : string :=
  match s with
  | EmptyString => EmptyString
  | String c r => if p c then String c (keep p r) else keep p r
  end.

(** Every maximal run of characters in [p] becomes the single character
    [h]; [inside] says that the character before belongs to a run. *)
Fixpoint collapse_runs (p : ascii -> bool) (h : ascii) (inside : bool)
    (s : string) : string :=
  match s with
  | EmptyString => EmptyString
  | String c r =>
      if p c
      then if inside then collapse_runs p h true r
           else String h (collapse_runs p h true r)
      else String c (collapse_runs p h false r)
  end.

Fixpoint trim_leading (s : string) : string :=
  match s with
  | EmptyString => EmptyString
  | String c r => if is_hyphen c then trim_leading r else s
  end.

Fixpoint trim_trailing (s : string) : string :=
  match s with
  | EmptyString => EmptyString
  | String c r =>
      match trim_trailing r with
      | EmptyString => if is_hyphen c then EmptyString else String c EmptyString
      | t => String c t
      end
  end.

Definition slugify_policy (text : string) : string :=
  let lowered := lower text in
  let stripped := keep retainable lowered in
  let hyphenated := collapse_runs is_space hyphen false stripped in
  let collapsed := collapse_runs is_hyphen hyphen false hyphenated in
  trim_trailing (trim_leading collapsed).

Fixpoint all_chars (p : ascii -> bool) (s : string) : bool :=
  match s with
  | EmptyString => true
  | String c r => p c && all_chars p r
  end.

(** ** Notions the properties are stated with *)

(** The first record with the given slug among the enumerated files, with
    the name of its file: the record the three slug operations act on. *)
Fixpoint first_match (slug : string) (paths : list (string * file))
  : option (string * dict) :=
  match paths with
  | [] => None
  | (name, Document (JObj a)) :: rest =>
      if eq_str (dict_get a "slug") slug then Some (name, a)
      else first_match slug rest
  | _ :: rest => first_match slug rest
  end.

(** The file holds a record with this slug. *)
Definition carries (slug : string) (e : string * file) : bool :=
  match snd e with
  | Document (JObj a) => eq_str (dict_get a "slug") slug
  | _ => false
  end.

(** The listed article has this slug. *)
Definition has_slug (slug : string) (j : json) : bool :=
  match j with
  | JObj a => eq_str (dict_get a "slug") slug
  | _ => false
  end.

Definition parseable (e : string * file) : bool :=
  match snd e with
  | Unparseable => false
  | Document _ => true
  end.

(** A record as the store writes it, as far as a listing reads it: a JSON
    object whose [createdAt], when present, is text. *)
Definition valid_record (j : json) : bool :=
  match j with
  | JObj a =>
      match dict_get a "createdAt" with
      | None | Some (JStr _) => true
      | Some _ => false
      end
  | _ => false
  end.

Definition document_of (e : string * file) : list json :=
  match snd e with
  | Document j => [j]
  | Unparseable => []
  end.

(** The documents of the parseable files, in order. *)
Definition documents (paths : list (string * file)) : list json :=
  flat_map document_of paths.

Definition is_digit (c : ascii) : bool := between 48 57 c.

(** "YYYY-MM-DDTHH:MM:SS", with ".ffffff" after it or not. *)
Definition is_iso8601 (s : string) : bool :=
  match s with
  | String y1 (String y2 (String y3 (String y4 (String "-"
    (String m1 (String m2 (String "-" (String d1 (String d2 (String "T"
    (String h1 (String h2 (String ":" (String n1 (String n2 (String ":"
    (String s1 (String s2 rest)))))))))))))))))) =>
      all_chars is_digit
        (string_of_list_ascii [y1; y2; y3; y4; m1; m2; d1; d2; h1; h2; n1; n2; s1; s2])
      && match rest with
         | EmptyString => true
         | String "." frac =>
             (String.length frac =? 6)%nat && all_chars is_digit frac
         | _ => false
         end
  | _ => false
  end.

(** "YYYYMMDDHHMMSS" *)
Definition is_timestamp14 (s : string) : bool :=
  (String.length s =? 14)%nat && all_chars is_digit s.

(** One call of [update_article_status]. *)
Record status_update : Type := StatusUpdate {
  target : string;
  new_status : string;
  at_time : datetime
}.

(** The directory after a sequence of status updates. *)
Definition run_updates (new_slot : directory -> string -> nat)
    (us : list status_update) (d : directory) : directory :=
  fold_left
    (fun d u =>
       snd (update_article_status new_slot (target u) (new_status u)
              (at_time u) d))
    us d.

(** What [update_article_status] writes back for the record [a]. *)
Definition updated (status : string) (clock : datetime) (a : dict) : dict :=
  let a := dict_set a "status" (JStr status) in
  if (status =? "published")%string && negb (truthy_opt (dict_get a "publishedAt"))
  then dict_set a "publishedAt" (JStr (isoformat clock))
  else a.

(** ** Notions of the proofs *)

(** No character of [p] follows a character of [p]; [before] says that
    the character before the string is in [p]. *)
Fixpoint single (p : ascii -> bool) (before : bool) (s : string) : bool :=
  match s with
  | EmptyString => true
  | String c r =>
      if p c then negb before && single p true r else single p false r
  end.

(** The string does not start with a hyphen. *)
Definition head_ok (s : string) : bool :=
  match s with
  | EmptyString => true
  | String c _ => negb (is_hyphen c)
  end.

(** Descending by name: no entry is below a later one. *)
Inductive descending : list (string * file) -> Prop :=
| descending_nil : descending []
| descending_cons e l :
    Forall (fun x => String.ltb (fst e) (fst x) = false) l ->
    descending l -> descending (e :: l).

(** A file made of a document. *)
Definition stored (e : string * json) : string * file :=
  (fst e, Document (snd e)).

(** The claim of section 8 on deletion, for one slug and one store. *)
Definition delete_forgets_slug (slug : string) (d : directory) : Prop :=
  fst (delete_article slug d) = "Article deleted: " ++ slug ->
  get_article slug (snd (delete_article slug d)) = not_found slug /\
  forall status limit j,
    In j (listed status limit (snd (delete_article slug d))) ->
    has_slug slug j = false.

(** The round trip of section 8 for one call of save_article: get_article
    with the slug of the new article returns the text of a stored record
    whose fields are the ones the caller gave, with an id and timestamps
    that are well formed. *)
Definition round_trip (ARTICLES_DIR : string)
    (new_slot : directory -> string -> nat)
    (title content meta_description primary_keyword : string)
    (secondary_keywords : list string) (image_url : string)
    (schema_markup : option dict) (clock1 clock2 : datetime) (d : directory)
  : Prop :=
  let slug := slugify title in
  let d' := snd (save_article ARTICLES_DIR new_slot title content
                   meta_description primary_keyword secondary_keywords
                   image_url schema_markup clock1 clock2 d) in
  exists name a,
    first_match slug (glob_json d') = Some (name, a) /\
    get_article slug d' = json_dumps 2 (JObj a) /\
    dict_get a "title" = Some (JStr title) /\
    dict_get a "metaDescription" = Some (JStr meta_description) /\
    dict_get a "content" = Some (JStr content) /\
    dict_get a "primaryKeyword" = Some (JStr primary_keyword) /\
    dict_get a "secondaryKeywords" = Some (JArr (map JStr secondary_keywords)) /\
    dict_get a "imageUrl" = Some (JStr image_url) /\
    (exists stamp, dict_get a "id" = Some (JStr (slug ++ "-" ++ stamp)) /\
                   is_timestamp14 stamp = true) /\
    (exists t, dict_get a "createdAt" = Some (JStr t) /\ is_iso8601 t = true) /\
    (exists t, dict_get a "publishedAt" = Some (JStr t) /\ is_iso8601 t = true).

(** ** Sample stores *)

(** New entries are enumerated last. *)
Definition slot_last (d : directory) (_ : string) : nat := List.length d.

Definition noon : datetime := Datetime 2024 3 9 12 0 0 0.
Definition later : datetime := Datetime 2024 3 9 12 0 5 250000.

(** The store after one article "Best Gin" was saved. *)
Definition gin_dir : directory :=
  snd (save_article "articles_data" slot_last "Best Gin" "old body" "about gin"
         "gin" ["tonic"] "gin.png" None noon noon []).

(** The store after a second article of the same title was saved. *)
Definition twins : directory :=
  snd (save_article "articles_data" slot_last "Best Gin" "new body" "about gin"
         "gin" ["tonic"] "gin.png" None later later gin_dir).

Definition gin_name : string := "best-gin-20240309120000.json".

Definition gin_article : dict :=
  new_article "best-gin-20240309120000" "best-gin" "Best Gin" "old body"
    "about gin" "gin" ["tonic"] "gin.png" None "2024-03-09T12:00:00".

Definition later_article : dict :=
  new_article "best-gin-20240309120005" "best-gin" "Best Gin" "new body"
    "about gin" "gin" ["tonic"] "gin.png" None "2024-03-09T12:00:05.250000".

(** The store after the article "Tonic Water" was saved next to
    "Best Gin". *)
Definition gin_and_tonic : directory :=
  snd (save_article "articles_data" slot_last "Tonic Water" "tonic body"
         "about tonic" "tonic" ["quinine"] "tonic.png" None later later gin_dir).

Definition tonic_name : string := "tonic-water-20240309120005.json".

Definition tonic_article : dict :=
  new_article "tonic-water-20240309120005" "tonic-water" "Tonic Water"
    "tonic body" "about tonic" "tonic" ["quinine"] "tonic.png" None
    "2024-03-09T12:00:05.250000".


(** Ten records and an unparseable file whose name sorts among theirs:
    in descending order it is the sixth of the eleven. *)
Definition ten_records : list (string * json) :=
  map (fun n : Z =>
         ("post-" ++ zero_padded 2 n ++ "-20240309120000.json",
          JObj (new_article ("post-" ++ zero_padded 2 n ++ "-20240309120000")
                  ("post-" ++ zero_padded 2 n) ("Post " ++ zero_padded 2 n)
                  "body" "about" "gin" [] "gin.png" None "2024-03-09T12:00:00")))
      [1; 2; 3; 4; 5; 6; 7; 8; 9; 10]%Z.

Definition eleven_files : directory :=
  ("post-05a.json", Unparseable) :: map stored ten_records.



(** ** Further notions: listings *)

(** The filter of [get_articles]: every document passes "all"; otherwise
    an object passes whose status is the one asked for. *)
Definition passes (status : string) (j : json) : bool :=
  (status =? "all")%string
  || match j with
     | JObj a => eq_str (dict_get a "status") status
     | _ => false
     end.

(** [summary] does not raise: an object whose [createdAt], when present,
    can be sliced. *)
Definition summarisable (j : json) : bool :=
  match j with
  | JObj a =>
      match dict_get a "createdAt" with
      | None | Some (JStr _) | Some (JArr _) => true
      | Some _ => false
      end
  | _ => false
  end.

(** ** Further notions: slugs *)

(** The string does not end with a hyphen. *)
Fixpoint last_ok (s : string) : bool :=
  match s with
  | EmptyString => true
  | String c EmptyString => negb (is_hyphen c)
  | String _ r => last_ok r
  end.

(** A slug: lowercase word characters and hyphens, no hyphen at either
    end, no two hyphens in a row. *)
Definition is_slug (s : string) : bool :=
  all_chars (fun c => (is_word c || is_hyphen c) && (lower_char c =? c)%char) s
  && head_ok s && last_ok s && single is_hyphen false s.

(** ** Further notions: sequences of operations *)

(** A call of one of the tools that write. *)
Inductive operation : Type :=
| SaveArticle (title content meta_description primary_keyword : string)
    (secondary_keywords : list string) (image_url : string)
    (schema_markup : option dict) (clock1 clock2 : datetime)
| UpdateArticleStatus (slug status : string) (clock : datetime)
| DeleteArticle (slug : string).

Definition apply_operation (ARTICLES_DIR : string)
    (new_slot : directory -> string -> nat) (d : directory) (o : operation)
  : directory :=
  match o with
  | SaveArticle title content meta_description primary_keyword
      secondary_keywords image_url schema_markup clock1 clock2 =>
      snd (save_article ARTICLES_DIR new_slot title content meta_description
             primary_keyword secondary_keywords image_url schema_markup
             clock1 clock2 d)
  | UpdateArticleStatus slug status clock =>
      snd (update_article_status new_slot slug status clock d)
  | DeleteArticle slug => snd (delete_article slug d)
  end.

(** The directory after the calls [os], in order. *)
Definition run (ARTICLES_DIR : string) (new_slot : directory -> string -> nat)
    (os : list operation) (d : directory) : directory :=
  fold_left (apply_operation ARTICLES_DIR new_slot) os d.

Definition is_text (o : option json) : bool :=
  match o with
  | Some (JStr _) => true
  | _ => false
  end.

(** A record as [save_article] writes it and [update_article_status]
    keeps it: text in [id], [slug], [title], [status] and [createdAt], and
    a [publishedAt] that is text and not empty. *)
Definition written_record (a : dict) : bool :=
  is_text (dict_get a "id") && is_text (dict_get a "slug")
  && is_text (dict_get a "title") && is_text (dict_get a "status")
  && is_text (dict_get a "createdAt") && is_text (dict_get a "publishedAt")
  && truthy_opt (dict_get a "publishedAt").

(** The file holds a written record, under the name of its id. *)
Definition written_file (e : string * file) : bool :=
  match snd e with
  | Document (JObj a) =>
      written_record a
      && match dict_get a "id" with
         | Some (JStr i) => (fst e =? i ++ ".json")%string
         | _ => false
         end
  | _ => false
  end.

(** Every file is a written record under the name of its id, and the
    names are distinct. *)
Definition written_store (d : directory) : Prop :=
  NoDup (names d) /\ forallb written_file d = true.

(** ** Exceptions caught with their message *)

(** What the body of a [try] gives when the handler formats [str(e)]: a
    value, or the message of the exception. *)
Inductive attempt (A : Type) : Type :=
| Got (a : A)
| Failed (message : string).

Arguments Got {A} a.
Arguments Failed {A} message.

Definition and_then {A B : Type} (c : attempt A) (k : A -> attempt B)
  : attempt B :=
  match c with
  | Got a => k a
  | Failed m => Failed m
  end.

Notation "x <~ c ;; k" := (and_then c (fun x => k))
  (at level 61, c at next level, right associativity).

Fixpoint collect {A B : Type} (f : A -> attempt B) (l : list A)
  : attempt (list B) :=
  match l with
  | [] => Got []
  | a :: r => b <~ f a ;; bs <~ collect f r ;; Got (b :: bs)
  end.

(** [type(x).__name__] *)
Definition type_name (x : json) : string :=
  match x with
  | JNull => "NoneType"
  | JBool _ => "bool"
  | JNum _ => "int"
  | JStr _ => "str"
  | JArr _ => "list"
  | JObj _ => "dict"
  end.

Definition not_subscriptable (x : json) : string :=
  "'" ++ type_name x ++ "' object is not subscriptable".

(** [x.get(k, default)], with the message of the [AttributeError]. *)
Definition get_item (x : json) (k : string) (default : json) : attempt json :=
  match x with
  | JObj d => Got (match dict_get d k with Some v => v | None => default end)
  | _ => Failed ("'" ++ type_name x ++ "' object has no attribute 'get'")
  end.

(** [x[0]]: the first element of a list, the first character of a [str];
    an [IndexError] on an empty one, [KeyError(0)] on a [dict], a
    [TypeError] on anything else. *)
Definition first_item (x : json) : attempt json :=
  match x with
  | JArr (y :: _) => Got y
  | JArr [] => Failed "list index out of range"
  | JStr (String c _) => Got (JStr (String c ""))
  | JStr EmptyString => Failed "string index out of range"
  | JObj _ => Failed "0"
  | _ => Failed (not_subscriptable x)
  end.

(** [l[:n]] of a sequence: a negative [n] counts from the end. *)
Definition upto {A : Type} (n : Z) (l : list A) : list A :=
  if (n <? 0)%Z then firstn (List.length l - Z.to_nat (- n)) l
  else firstn (Z.to_nat n) l.

(** The elements a [for] loop takes from [x[:n]]: those of a list, the
    characters of a [str]; a [dict] cannot be sliced (the message is the
    one of CPython up to 3.11). *)
Definition items_upto (n : Z) (x : json) : attempt (list json) :=
  match x with
  | JArr l => Got (upto n l)
  | JStr s => Got (map (fun c => JStr (String c "")) (upto n (list_ascii_of_string s)))
  | JObj _ => Failed "unhashable type: 'slice'"
  | _ => Failed (not_subscriptable x)
  end.

(** ** The HTTP exchange *)

(** A POST request of [httpx.AsyncClient]: the timeout is in seconds. *)
Record request : Type := Request {
  url : string;
  auth : option (string * string);
  headers : list (string * string);
  timeout : Z;
  payload : json
}.

(** A response: its status code, and what [response.json()] gives. *)
Record response : Type := Response {
  status_code : Z;
  json_body : attempt json
}.

Definition DATASEO_API_URL : string := "https://api.dataforseo.com/v3".

Definition fallback_image : string := "fallback:/images/default-gin-tonic.jpg".

Definition imagen_url : string :=
  "https://generativelanguage.googleapis.com/v1beta/models/imagen-3.0-generate-002:predict".

(** The prompt of [generate_image]. *)
Definition image_prompt (title : string) : string :=
  "A beautiful, professional photograph of a gin and tonic cocktail for an article titled "
  ++ String dquote (title ++ String dquote ("." ++ nl ++ nl
  ++ "The image should feature:" ++ nl
  ++ "- An elegant crystal or highball glass with a perfectly mixed gin and tonic" ++ nl
  ++ "- Visible ice cubes and bubbles from the tonic" ++ nl
  ++ "- Appropriate botanical garnishes (citrus, herbs, berries) based on the gin style" ++ nl
  ++ "- Soft, natural lighting with a sophisticated bar or home setting" ++ nl
  ++ "- Shallow depth of field for professional look" ++ nl
  ++ "- Color palette that evokes freshness and premium quality" ++ nl ++ nl
  ++ "Style: Editorial food photography, magazine quality, warm ambient lighting")).

Section Network.

(** [os.environ] *)
Variable environ : string -> option string.

(** [client.post]: the response, or the message of the exception the
    exchange raises. *)
Variable send : request -> attempt response.

(** [response.raise_for_status()]: the message of the [HTTPStatusError]
    that [httpx] raises for this response, if it raises one. *)
Variable raise_for_status : response -> option string.

(** [os.getenv(name, default)] *)
Definition getenv (name default : string) : string :=
  match environ name with
  | Some v => v
  | None => default
  end.

Definition checked (r : response) : attempt response :=
  match raise_for_status r with
  | Some m => Failed m
  | None => Got r
  end.

(** *** imagen_server.py *)

Definition imagen_request (api_key title : string) : request :=
  Request imagen_url None
    [("Content-Type", "application/json"); ("x-goog-api-key", api_key)] 60
    (JObj [("instances", JArr [JObj [("prompt", JStr (image_prompt title))]]);
           ("parameters",
            JObj [("sampleCount", JNum 1);
                  ("aspectRatio", JStr "16:9");
                  ("personGeneration", JStr "dont_allow")])]).

(** The body of the [try] of [generate_image]. *)
Definition generate_image_try (api_key title : string) : attempt string :=
  response <~ send (imagen_request api_key title) ;;
  if negb (status_code response =? 200)%Z
  then Got (fallback_image ++ " (API error: "
            ++ str_of_int (status_code response) ++ ")")
  else
    data <~ json_body response ;;
    predictions <~ get_item data "predictions" (JArr [JObj []]) ;;
    prediction <~ first_item predictions ;;
    encoded <~ get_item prediction "bytesBase64Encoded" JNull ;;
    if truthy encoded then
      mime_type <~ get_item prediction "mimeType" (JStr "image/png") ;;
      Got ("data:" ++ str mime_type ++ ";base64," ++ str encoded)
    else Got fallback_image.

Definition generate_image (title keyword : string) : string :=
  let api_key := getenv "GEMINI_API_KEY" "" in
  if (api_key =? "")%string then fallback_image
  else
    match generate_image_try api_key title with
    | Got text => text
    | Failed m => fallback_image ++ " (error: " ++ m ++ ")"
    end.

(** *** dataseo_server.py *)

Definition get_auth : option (string * string) :=
  let login := getenv "DATAFORSEO_LOGIN" "" in
  let password := getenv "DATAFORSEO_PASSWORD" "" in
  if (login =? "")%string || (password =? "")%string then None
  else Some (login, password).

Definition dataseo_request (credentials : string * string) (path : string)
    (task : dict) : request :=
  Request (DATASEO_API_URL ++ path) (Some credentials) [] 30 (JArr [JObj task]).

(** [data.get("tasks", [{}])[0].get("result", [{}])[0]] *)
Definition first_result (data : json) : attempt json :=
  tasks <~ get_item data "tasks" (JArr [JObj []]) ;;
  task <~ first_item tasks ;;
  results <~ get_item task "result" (JArr [JObj []]) ;;
  first_item results.

(** The body of the [try] of [search_keywords]. *)
Definition search_keywords_try (credentials : string * string)
    (keyword : string) (location_code : Z) : attempt string :=
  response <~ send (dataseo_request credentials
                      "/keywords_data/google_ads/search_volume/live"
                      [("keywords", JArr [JStr keyword]);
                       ("location_code", JNum location_code);
                       ("language_code", JStr "en")]) ;;
  response <~ checked response ;;
  data <~ json_body response ;;
  result <~ first_result data ;;
  if negb (truthy result) then Got ("No data found for keyword: " ++ keyword)
  else
    volume <~ get_item result "search_volume" (JStr "N/A") ;;
    competition <~ get_item result "competition" (JStr "N/A") ;;
    cpc <~ get_item result "cpc" (JStr "N/A") ;;
    Got ("Keyword: " ++ keyword ++ nl
         ++ "Search Volume: " ++ str volume ++ nl
         ++ "Competition: " ++ str competition ++ nl
         ++ "CPC: $" ++ str cpc).

Definition search_keywords (keyword : string) (location_code : Z) : string :=
  match get_auth with
  | None => "DataForSEO credentials not configured. Skipping keyword research."
  | Some credentials =>
      match search_keywords_try credentials keyword location_code with
      | Got text => text
      | Failed m => "DataForSEO error: " ++ m
      end
  end.

(** The line of one item in [get_related_keywords]. *)
Definition related_line (item : json) : attempt string :=
  kw_data <~ get_item item "keyword_data" (JObj []) ;;
  keyword <~ get_item kw_data "keyword" (JStr "N/A") ;;
  info <~ get_item kw_data "keyword_info" (JObj []) ;;
  volume <~ get_item info "search_volume" (JStr "N/A") ;;
  Got ("- " ++ str keyword ++ ": " ++ str volume ++ " searches").

(** The body of the [try] of [get_related_keywords]. *)
Definition get_related_keywords_try (credentials : string * string)
    (keyword : string) (limit : Z) : attempt string :=
  response <~ send (dataseo_request credentials
                      "/dataforseo_labs/google/related_keywords/live"
                      [("keyword", JStr keyword);
                       ("location_code", JNum 2840);
                       ("language_code", JStr "en");
                       ("limit", JNum limit)]) ;;
  response <~ checked response ;;
  data <~ json_body response ;;
  result <~ first_result data ;;
  items <~ get_item result "items" (JArr []) ;;
  if negb (truthy items) then Got ("No related keywords found for: " ++ keyword)
  else
    taken <~ items_upto limit items ;;
    keywords <~ collect related_line taken ;;
    Got ("Related keywords for '" ++ keyword ++ "':" ++ nl ++ join nl keywords).

Definition get_related_keywords (keyword : string) (limit : Z) : string :=
  match get_auth with
  | None => "DataForSEO credentials not configured."
  | Some credentials =>
      match get_related_keywords_try credentials keyword limit with
      | Got text => text
      | Failed m => "DataForSEO error: " ++ m
      end
  end.

Definition default_topics : list string :=
  ["best gin for gin and tonic";
   "fever tree tonic water review";
   "hendricks gin cocktails";
   "summer gin cocktails";
   "botanical gin guide";
   "gin and tonic garnishes";
   "premium tonic water comparison";
   "gin tasting notes";
   "craft gin brands";
   "gin cocktail recipes"].

(** The line of one item in [get_trending_topics]. *)
Definition trending_line (item : json) : attempt string :=
  keyword <~ get_item item "keyword" (JStr "") ;;
  info <~ get_item item "keyword_info" (JObj []) ;;
  volume <~ get_item info "search_volume" (JNum 0) ;;
  Got ("- " ++ str keyword ++ ": " ++ str volume ++ " monthly searches").

(** The body of the [try] of [get_trending_topics]. *)
Definition get_trending_topics_try (credentials : string * string)
  : attempt string :=
  response <~ send (dataseo_request credentials
                      "/dataforseo_labs/google/keyword_suggestions/live"
                      [("keyword", JStr "gin and tonic");
                       ("location_code", JNum 2840);
                       ("language_code", JStr "en");
                       ("limit", JNum 20);
                       ("filters",
                        JArr [JArr [JStr "keyword_info.search_volume";
                                    JStr ">"; JNum 100]]);
                       ("order_by", JArr [JStr "keyword_info.search_volume,desc"])]) ;;
  response <~ checked response ;;
  data <~ json_body response ;;
  result <~ first_result data ;;
  items <~ get_item result "items" (JArr []) ;;
  if negb (truthy items) then Got "No trending topics found."
  else
    taken <~ items_upto 15 items ;;
    topics <~ collect trending_line taken ;;
    Got ("Trending gin & tonic topics:" ++ nl ++ join nl topics).

Definition get_trending_topics : string :=
  match get_auth with
  | None =>
      "Trending topics (default list):" ++ nl
      ++ join nl (map (fun topic => "- " ++ topic) default_topics)
  | Some credentials =>
      match get_trending_topics_try credentials with
      | Got text => text
      | Failed m => "DataForSEO error: " ++ m
      end
  end.

End Network.

(** ** Sample network *)

(** Both DataForSEO variables and the Gemini key are set. *)
Definition sample_environ (name : string) : option string :=
  if (name =? "DATAFORSEO_LOGIN")%string then Some "user"
  else if (name =? "DATAFORSEO_PASSWORD")%string then Some "secret"
  else if (name =? "GEMINI_API_KEY")%string then Some "key"
  else None.

(** Every request is answered with status 200 and the body [j]. *)
Definition answers (j : json) (rq : request) : attempt response :=
  Got (Response 200 (Got j)).

Definition no_status_error (r : response) : option string := None.

(** A response body with the given items in its first result. *)
Definition body_with_items (items : list json) : json :=
  JObj [("tasks", JArr [JObj [("result", JArr [JObj [("items", JArr items)]])]])].

Definition three_items : list json :=
  [JObj [("keyword", JStr "gin");
         ("keyword_data",
          JObj [("keyword", JStr "gin"); ("keyword_info", JObj [("search_volume", JNum 900)])])];
   JObj [];
   JObj [("keyword", JStr "tonic")]].

(** The item has a line in [get_related_keywords]. *)
Definition has_related_line (item : json) : bool :=
  match related_line item with
  | Got _ => true
  | Failed _ => false
  end.

(** The item has a line in [get_trending_topics]. *)
Definition has_trending_line (item : json) : bool :=
  match trending_line item with
  | Got _ => true
  | Failed _ => false
  end.

(** * Properties *)

(** ** Strings *)

Lemma append_empty_r (s : string) : s ++ "" = s.
Proof. induction s as [|c s IH]; simpl; [reflexivity | now rewrite IH]. Qed.

Lemma append_assoc (a b c : string) : (a ++ b) ++ c = a ++ (b ++ c).
Proof. induction a as [|x a IH]; simpl; [reflexivity | now rewrite IH]. Qed.

Lemma length_append (a b : string) :
  String.length (a ++ b) = String.length a + String.length b.
Proof. induction a as [|x a IH]; simpl; [reflexivity | now rewrite IH]. Qed.

Lemma rev_append_char (s : string) (c : ascii) :
  rev (s ++ String c "") = String c (rev s).
Proof. induction s as [|x s IH]; simpl; [reflexivity | now rewrite IH]. Qed.

Lemma lstrip_append (chars a b : string) :
  lstrip chars (a ++ b) =
  match lstrip chars a with
  | EmptyString => lstrip chars b
  | t => t ++ b
  end.
Proof.
  induction a as [|x a IH]; simpl.
  - destruct (lstrip chars b); reflexivity.
  - destruct (contains x chars); [exact IH | reflexivity].
Qed.

Lemma lstrip_hyphen (s : string) : lstrip "-" s = trim_leading s.
Proof.
  induction s as [|c s IH]; simpl; [reflexivity|].
  unfold is_hyphen, hyphen. rewrite orb_false_r.
  destruct (c =? "-")%char; [exact IH | reflexivity].
Qed.

Lemma rstrip_hyphen (s : string) : rstrip "-" s = trim_trailing s.
Proof.
  unfold rstrip.
  induction s as [|c s IH]; simpl; [reflexivity|].
  rewrite lstrip_append, <- IH.
  destruct (lstrip "-" (rev s)) as [|y t] eqn:E.
  - simpl. unfold is_hyphen, hyphen. rewrite orb_false_r.
    destruct (c =? "-")%char; reflexivity.
  - rewrite rev_append_char.
    destruct (rev (String y t)) eqn:R; [|reflexivity].
    simpl in R. destruct (rev t); discriminate.
Qed.

Lemma strip_hyphen (s : string) :
  strip "-" s = trim_trailing (trim_leading s).
Proof. unfold strip. now rewrite rstrip_hyphen, lstrip_hyphen. Qed.

(** ** Regular expressions against character functions *)

Lemma length_skip_while (p : ascii -> bool) (s : string) :
  String.length (skip_while p s) <= String.length s.
Proof.
  induction s as [|c s IH]; simpl; [lia|].
  destruct (p c); simpl; lia.
Qed.

Lemma collapse_inside_skip (p : ascii -> bool) (h : ascii) (s : string) :
  collapse_runs p h true s = collapse_runs p h false (skip_while p s).
Proof.
  induction s as [|c s IH]; simpl; [reflexivity|].
  destruct (p c) eqn:E; [exact IH|].
  simpl. now rewrite E.
Qed.

(** Substituting the empty string for each character of a set deletes the
    characters of the set. *)
Lemma re_sub_one (cs : charset) (n : nat) (s : string) :
  String.length s <= n ->
  re_sub_steps n (One cs) "" s = keep (fun c => negb (charset_matches cs c)) s.
Proof.
  revert s. induction n as [|n IH]; intros [|c s] H; simpl in *;
    try reflexivity; try lia.
  destruct (charset_matches cs c); simpl; rewrite IH by lia; reflexivity.
Qed.

(** Substituting one character for each greedy run of a set collapses the
    runs. *)
Lemma re_sub_many (cs : charset) (h : ascii) (n : nat) (s : string) :
  String.length s <= n ->
  re_sub_steps n (Many cs) (String h "") s =
  collapse_runs (charset_matches cs) h false s.
Proof.
  revert s. induction n as [|n IH]; intros [|c s] H; simpl in *;
    try reflexivity; try lia.
  destruct (charset_matches cs c) eqn:E; simpl.
  - rewrite IH, collapse_inside_skip; [reflexivity|].
    pose proof (length_skip_while (charset_matches cs) s). lia.
  - rewrite IH by lia. reflexivity.
Qed.

Lemma keep_ext (p q : ascii -> bool) (s : string) :
  (forall c, p c = q c) -> keep p s = keep q s.
Proof.
  intros E. induction s as [|c s IH]; simpl; [reflexivity|].
  now rewrite E, IH.
Qed.

Lemma collapse_runs_ext (p q : ascii -> bool) (h : ascii) (b : bool) (s : string) :
  (forall c, p c = q c) -> collapse_runs p h b s = collapse_runs q h b s.
Proof.
  intros E. revert b. induction s as [|c s IH]; intros b; simpl; [reflexivity|].
  now rewrite E, !IH.
Qed.

(** The regular expressions of [slugify] compute the policy of the
    specification. *)
Lemma slugify_eq_policy (text : string) : slugify text = slugify_policy text.
Proof.
  unfold slugify, slugify_policy, re_sub.
  rewrite strip_hyphen.
  unfold not_word_space_hyphen, whitespace_run, hyphen_run.
  rewrite re_sub_one by lia.
  change "-" with (String hyphen "").
  rewrite !re_sub_many by lia.
  do 2 f_equal.
  rewrite (collapse_runs_ext _ is_hyphen).
  2:{ intros c. unfold charset_matches. simpl. now rewrite orb_false_r. }
  f_equal.
  rewrite (collapse_runs_ext _ is_space).
  2:{ intros c. unfold charset_matches. simpl. now rewrite orb_false_r. }
  f_equal.
  apply keep_ext. intros c. unfold charset_matches, retainable, is_hyphen. simpl.
  destruct (is_word c), (is_space c), (c =? hyphen)%char; reflexivity.
Qed.

(** ** Facts about single characters, checked on all 256 of them *)

Ltac each_char c := destruct c as [[] [] [] [] [] [] [] []]; vm_compute.

Lemma lower_char_idem (c : ascii) : lower_char (lower_char c) = lower_char c.
Proof. each_char c; reflexivity. Qed.

Lemma word_not_space (c : ascii) : is_word c = true -> is_space c = false.
Proof. each_char c; intros H; solve [reflexivity | discriminate H]. Qed.

Lemma is_hyphen_eq (c : ascii) : is_hyphen c = true -> c = hyphen.
Proof. unfold is_hyphen. apply Ascii.eqb_eq. Qed.

(** ** Character-wise invariants of the policy steps *)

Lemma all_chars_impl (p q : ascii -> bool) (s : string) :
  (forall c, p c = true -> q c = true) ->
  all_chars p s = true -> all_chars q s = true.
Proof.
  intros I. induction s as [|c s IH]; simpl; [reflexivity|].
  intros H. apply andb_true_iff in H as [H1 H2].
  now rewrite (I _ H1), IH.
Qed.

Lemma all_chars_and (p q : ascii -> bool) (s : string) :
  all_chars p s = true -> all_chars q s = true ->
  all_chars (fun c => p c && q c) s = true.
Proof.
  induction s as [|c s IH]; simpl; [reflexivity|].
  intros H1 H2.
  apply andb_true_iff in H1 as [H1 H1'], H2 as [H2 H2'].
  now rewrite H1, H2, IH.
Qed.

Lemma all_chars_lower (s : string) :
  all_chars (fun c => (lower_char c =? c)%char) (lower s) = true.
Proof.
  induction s as [|c s IH]; simpl; [reflexivity|].
  now rewrite lower_char_idem, Ascii.eqb_refl, IH.
Qed.

Lemma all_chars_keep_self (p : ascii -> bool) (s : string) :
  all_chars p (keep p s) = true.
Proof.
  induction s as [|c s IH]; simpl; [reflexivity|].
  destruct (p c) eqn:E; simpl; [now rewrite E | exact IH].
Qed.

Lemma all_chars_keep (p q : ascii -> bool) (s : string) :
  all_chars q s = true -> all_chars q (keep p s) = true.
Proof.
  induction s as [|c s IH]; simpl; [reflexivity|].
  intros H. apply andb_true_iff in H as [H1 H2].
  destruct (p c); simpl; [now rewrite H1, IH | now apply IH].
Qed.

Lemma all_chars_collapse (p q : ascii -> bool) (h : ascii) (b : bool) (s : string) :
  q h = true -> all_chars q s = true ->
  all_chars q (collapse_runs p h b s) = true.
Proof.
  intros Hh. revert b. induction s as [|c s IH]; intros b; simpl; [reflexivity|].
  intros H. apply andb_true_iff in H as [H1 H2].
  destruct (p c); [destruct b|]; simpl; rewrite ?Hh, ?H1, ?IH; auto.
Qed.

Lemma all_chars_collapse_out (p : ascii -> bool) (h : ascii) (b : bool) (s : string) :
  p h = false ->
  all_chars (fun c => negb (p c)) (collapse_runs p h b s) = true.
Proof.
  intros Hh. revert b. induction s as [|c s IH]; intros b; simpl; [reflexivity|].
  destruct (p c) eqn:E; [destruct b|]; simpl; rewrite ?Hh, ?E, ?IH; auto.
Qed.

Lemma all_chars_trim_leading (q : ascii -> bool) (s : string) :
  all_chars q s = true -> all_chars q (trim_leading s) = true.
Proof.
  induction s as [|c s IH]; simpl; [reflexivity|].
  intros H. destruct (is_hyphen c); [|exact H].
  apply andb_true_iff in H as [_ H]. now apply IH.
Qed.

Lemma all_chars_trim_trailing (q : ascii -> bool) (s : string) :
  all_chars q s = true -> all_chars q (trim_trailing s) = true.
Proof.
  induction s as [|c s IH]; simpl; [reflexivity|].
  intros H. apply andb_true_iff in H as [H1 H2]. specialize (IH H2).
  destruct (trim_trailing s) as [|y t].
  - destruct (is_hyphen c); simpl; [reflexivity | now rewrite H1].
  - change (all_chars q (String c (String y t))) with (q c && all_chars q (String y t)).
    now rewrite H1, IH.
Qed.

(** ** Strings that a step leaves as they are *)

Lemma lower_fixed (s : string) :
  all_chars (fun c => (lower_char c =? c)%char) s = true -> lower s = s.
Proof.
  induction s as [|c s IH]; simpl; [reflexivity|].
  intros H. apply andb_true_iff in H as [H1 H2].
  apply Ascii.eqb_eq in H1. now rewrite H1, IH.
Qed.

Lemma keep_fixed (p : ascii -> bool) (s : string) :
  all_chars p s = true -> keep p s = s.
Proof.
  induction s as [|c s IH]; simpl; [reflexivity|].
  intros H. apply andb_true_iff in H as [H1 H2].
  now rewrite H1, IH.
Qed.

Lemma collapse_fixed_out (p : ascii -> bool) (h : ascii) (b : bool) (s : string) :
  all_chars (fun c => negb (p c)) s = true -> collapse_runs p h b s = s.
Proof.
  revert b. induction s as [|c s IH]; intros b; simpl; [reflexivity|].
  intros H. apply andb_true_iff in H as [H1 H2].
  apply negb_true_iff in H1. now rewrite H1, IH.
Qed.

Lemma single_collapse (p : ascii -> bool) (h : ascii) (b : bool) (s : string) :
  p h = true -> single p b (collapse_runs p h b s) = true.
Proof.
  intros Hh. revert b. induction s as [|c s IH]; intros b; simpl; [reflexivity|].
  destruct (p c) eqn:E; [destruct b|]; simpl; rewrite ?Hh, ?E; simpl; apply IH.
Qed.

Lemma collapse_fixed_single (p : ascii -> bool) (h : ascii) (b : bool) (s : string) :
  (forall c, p c = true -> c = h) ->
  single p b s = true -> collapse_runs p h b s = s.
Proof.
  intros Hp. revert b. induction s as [|c s IH]; intros b; simpl; [reflexivity|].
  destruct (p c) eqn:E.
  - intros H. apply andb_true_iff in H as [H1 H2].
    apply negb_true_iff in H1. subst b.
    now rewrite (Hp _ E), IH.
  - intros H. now rewrite IH.
Qed.

Lemma single_weaken (p : ascii -> bool) (b : bool) (s : string) :
  single p b s = true -> single p false s = true.
Proof.
  destruct s as [|c s]; simpl; [reflexivity|].
  destruct (p c); [|trivial].
  intros H. apply andb_true_iff in H as [_ H]. exact H.
Qed.

Lemma single_trim_leading (b : bool) (s : string) :
  single is_hyphen b s = true -> single is_hyphen false (trim_leading s) = true.
Proof.
  revert b. induction s as [|c s IH]; intros b; simpl; [reflexivity|].
  destruct (is_hyphen c) eqn:E.
  - intros H. apply andb_true_iff in H as [_ H]. now apply (IH true).
  - intros H. simpl. now rewrite E.
Qed.

Lemma single_trim_trailing (p : ascii -> bool) (b : bool) (s : string) :
  single p b s = true -> single p b (trim_trailing s) = true.
Proof.
  revert b. induction s as [|c s IH]; intros b; simpl; [reflexivity|].
  intros H.
  assert (Hr : single p (p c) (trim_trailing s) = true).
  { apply IH. destruct (p c); [|exact H].
    apply andb_true_iff in H as [_ H]. exact H. }
  destruct (trim_trailing s) as [|y t].
  - destruct (is_hyphen c); [reflexivity|].
    simpl. destruct (p c); [|reflexivity].
    apply andb_true_iff in H as [H _]. now rewrite H.
  - change (single p b (String c (String y t)))
      with (if p c then negb b && single p true (String y t)
            else single p false (String y t)).
    destruct (p c); [|exact Hr].
    apply andb_true_iff in H as [H _]. now rewrite H, Hr.
Qed.

Lemma head_ok_trim_leading (s : string) : head_ok (trim_leading s) = true.
Proof.
  induction s as [|c s IH]; simpl; [reflexivity|].
  destruct (is_hyphen c) eqn:E; [exact IH | simpl; now rewrite E].
Qed.

Lemma head_ok_trim_trailing (s : string) :
  head_ok s = true -> head_ok (trim_trailing s) = true.
Proof.
  destruct s as [|c s]; simpl; [reflexivity|].
  intros H. apply negb_true_iff in H.
  destruct (trim_trailing s); rewrite ?H; simpl; now rewrite H.
Qed.

Lemma trim_leading_fixed (s : string) : head_ok s = true -> trim_leading s = s.
Proof.
  destruct s as [|c s]; simpl; [reflexivity|].
  intros H. apply negb_true_iff in H. now rewrite H.
Qed.

Lemma trim_trailing_idem (s : string) :
  trim_trailing (trim_trailing s) = trim_trailing s.
Proof.
  induction s as [|c s IH]; simpl; [reflexivity|].
  destruct (trim_trailing s) as [|y t] eqn:E.
  - destruct (is_hyphen c) eqn:H; simpl; [reflexivity | now rewrite H].
  - change (trim_trailing (String c (String y t)))
      with (match trim_trailing (String y t) with
            | EmptyString => if is_hyphen c then EmptyString else String c EmptyString
            | t' => String c t'
            end).
    now rewrite IH.
Qed.

(** A slug is left as it is by the policy. *)
Lemma slugify_policy_idem (x : string) :
  slugify_policy (slugify_policy x) = slugify_policy x.
Proof.
  unfold slugify_policy at 1.
  set (out := slugify_policy x).
  assert (L : all_chars (fun c => (lower_char c =? c)%char) out = true).
  { unfold out, slugify_policy.
    apply all_chars_trim_trailing, all_chars_trim_leading.
    do 2 (apply all_chars_collapse; [reflexivity|]).
    apply all_chars_keep, all_chars_lower. }
  assert (K : all_chars retainable out = true).
  { unfold out, slugify_policy.
    apply all_chars_trim_trailing, all_chars_trim_leading.
    do 2 (apply all_chars_collapse; [reflexivity|]).
    apply all_chars_keep_self. }
  assert (N : all_chars (fun c => negb (is_space c)) out = true).
  { unfold out, slugify_policy.
    apply all_chars_trim_trailing, all_chars_trim_leading.
    apply all_chars_collapse; [reflexivity|].
    apply all_chars_collapse_out. reflexivity. }
  assert (S1 : single is_hyphen false out = true).
  { unfold out, slugify_policy.
    apply single_trim_trailing, (single_trim_leading false).
    apply single_collapse. reflexivity. }
  assert (H : head_ok out = true).
  { unfold out, slugify_policy.
    apply head_ok_trim_trailing, head_ok_trim_leading. }
  rewrite (lower_fixed _ L), (keep_fixed _ _ K), (collapse_fixed_out _ _ _ _ N).
  rewrite (collapse_fixed_single _ _ _ _ is_hyphen_eq S1).
  rewrite (trim_leading_fixed _ H).
  unfold out, slugify_policy. apply trim_trailing_idem.
Qed.

(** Without a word character nothing is left of the text. *)
Lemma collapse_all_in (p : ascii -> bool) (h : ascii) (s : string) :
  all_chars p s = true -> collapse_runs p h true s = "".
Proof.
  induction s as [|c s IH]; simpl; [reflexivity|].
  intros H. apply andb_true_iff in H as [H1 H2]. now rewrite H1, IH.
Qed.

Lemma is_word_lower_char (c : ascii) : is_word (lower_char c) = is_word c.
Proof. each_char c; reflexivity. Qed.

Lemma all_chars_lower_no_word (s : string) :
  all_chars (fun c => negb (is_word c)) s = true ->
  all_chars (fun c => negb (is_word c)) (lower s) = true.
Proof.
  induction s as [|c s IH]; simpl; [reflexivity|].
  intros H. apply andb_true_iff in H as [H1 H2].
  now rewrite is_word_lower_char, H1, IH.
Qed.

Lemma all_chars_collapse_into (p q : ascii -> bool) (h : ascii) (b : bool)
    (s : string) :
  q h = true -> all_chars (fun c => p c || q c) s = true ->
  all_chars q (collapse_runs p h b s) = true.
Proof.
  intros Hh. revert b. induction s as [|c s IH]; intros b; simpl; [reflexivity|].
  intros H. apply andb_true_iff in H as [H1 H2].
  destruct (p c); [destruct b|]; simpl in *; rewrite ?Hh, ?H1, ?IH; auto.
Qed.

Lemma trim_leading_hyphens (s : string) :
  all_chars is_hyphen s = true -> trim_leading s = "".
Proof.
  induction s as [|c s IH]; simpl; [reflexivity|].
  intros H. apply andb_true_iff in H as [H1 H2]. now rewrite H1, IH.
Qed.

Lemma slugify_policy_no_word (text : string) :
  all_chars (fun c => negb (is_word c)) text = true -> slugify_policy text = "".
Proof.
  intros H. unfold slugify_policy.
  rewrite trim_leading_hyphens; [reflexivity|].
  apply all_chars_collapse; [reflexivity|].
  apply all_chars_collapse_into; [reflexivity|].
  apply all_chars_impl
    with (p := fun c => retainable c && negb (is_word c)).
  - intros c. unfold retainable.
    destruct (is_word c), (is_space c), (is_hyphen c); auto.
  - apply all_chars_and; [apply all_chars_keep_self|].
    apply all_chars_keep, all_chars_lower_no_word, H.
Qed.

(** ** The order of file names and the sort *)

Lemma ascii_compare_lt_trans (a b c : ascii) :
  Ascii.compare a b = Lt -> Ascii.compare b c = Lt -> Ascii.compare a c = Lt.
Proof.
  unfold Ascii.compare. rewrite !N.compare_lt_iff. lia.
Qed.

Lemma compare_lt_trans (s1 s2 s3 : string) :
  String.compare s1 s2 = Lt -> String.compare s2 s3 = Lt ->
  String.compare s1 s3 = Lt.
Proof.
  revert s2 s3. induction s1 as [|a s1 IH]; intros [|b s2] [|c s3]; simpl;
    try congruence.
  destruct (Ascii.compare a b) eqn:Eab; try discriminate;
    destruct (Ascii.compare b c) eqn:Ebc; try discriminate; intros H1 H2.
  - apply Ascii.compare_eq_iff in Eab, Ebc. subst.
    unfold Ascii.compare. rewrite N.compare_refl. eauto.
  - apply Ascii.compare_eq_iff in Eab. subst. now rewrite Ebc.
  - apply Ascii.compare_eq_iff in Ebc. subst. now rewrite Eab.
  - now rewrite (ascii_compare_lt_trans _ _ _ Eab Ebc).
Qed.

(** [x <= e] and [y <= x] give [y <= e]. *)
Lemma ltb_false_trans (e x y : string) :
  String.ltb e x = false -> String.ltb x y = false -> String.ltb e y = false.
Proof.
  unfold String.ltb. intros H1 H2.
  destruct (String.compare e y) eqn:Eey; try reflexivity.
  exfalso.
  destruct (String.compare e x) eqn:Eex; try discriminate.
  - apply String.compare_eq_iff in Eex. subst. now rewrite Eey in H2.
  - assert (Exe : String.compare x e = Lt).
    { rewrite String.compare_antisym, Eex. reflexivity. }
    now rewrite (compare_lt_trans _ _ _ Exe Eey) in H2.
Qed.

Lemma insert_desc_perm (e : string * file) (l : list (string * file)) :
  Permutation (insert_desc e l) (e :: l).
Proof.
  induction l as [|x l IH]; simpl; [reflexivity|].
  destruct (String.ltb (fst e) (fst x)); [|reflexivity].
  rewrite IH. apply perm_swap.
Qed.

Lemma sorted_reverse_perm (l : list (string * file)) :
  Permutation (sorted_reverse l) l.
Proof.
  induction l as [|e l IH]; simpl; [reflexivity|].
  rewrite insert_desc_perm. now constructor.
Qed.

Lemma insert_desc_descending (e : string * file) (l : list (string * file)) :
  descending l -> descending (insert_desc e l).
Proof.
  induction 1 as [|x l Hx Hl IH]; simpl.
  - repeat constructor.
  - destruct (String.ltb (fst e) (fst x)) eqn:E.
    + constructor; [|exact IH].
      rewrite insert_desc_perm. constructor; [|exact Hx].
      unfold String.ltb in *. rewrite String.compare_antisym.
      destruct (String.compare (fst e) (fst x)); try discriminate. reflexivity.
    + constructor; [|now constructor].
      constructor; [exact E|].
      eapply Forall_impl; [|exact Hx]. intros y Hy. simpl in Hy.
      eapply ltb_false_trans; eassumption.
Qed.

Lemma sorted_reverse_descending (l : list (string * file)) :
  descending (sorted_reverse l).
Proof.
  induction l as [|e l IH]; simpl; [constructor|].
  now apply insert_desc_descending.
Qed.

Lemma descending_filter (p : string * file -> bool) (l : list (string * file)) :
  descending l -> descending (filter p l).
Proof.
  induction 1 as [|x l Hx Hl IH]; simpl; [constructor|].
  destruct (p x); [|exact IH].
  constructor; [|exact IH].
  apply Forall_forall. intros y Hy. apply filter_In in Hy as [Hy _].
  rewrite Forall_forall in Hx. now apply Hx.
Qed.

Lemma insert_desc_head (e : string * file) (l : list (string * file)) :
  Forall (fun x => String.ltb (fst e) (fst x) = false) l ->
  insert_desc e l = e :: l.
Proof.
  destruct l as [|x l]; simpl; [reflexivity|].
  intros H. inversion H; subst. now rewrite H2.
Qed.

Lemma filter_insert_desc (p : string * file -> bool) (e : string * file)
    (l : list (string * file)) :
  descending l ->
  filter p (insert_desc e l) =
  if p e then insert_desc e (filter p l) else filter p l.
Proof.
  induction 1 as [|x l Hx Hl IH]; simpl.
  - destruct (p e); reflexivity.
  - destruct (String.ltb (fst e) (fst x)) eqn:E; simpl.
    + rewrite IH. destruct (p x), (p e); simpl; rewrite ?E; reflexivity.
    + destruct (p e) eqn:Pe; [|reflexivity].
      f_equal. symmetry.
      change (insert_desc e (filter p (x :: l)) = e :: filter p (x :: l)).
      apply insert_desc_head.
      apply Forall_forall. intros y Hy. apply filter_In in Hy as [Hy _].
      destruct Hy as [<-|Hy]; [exact E|].
      rewrite Forall_forall in Hx. eapply ltb_false_trans; eauto.
Qed.

(** Sorting and filtering commute. *)
Lemma filter_sorted_reverse (p : string * file -> bool) (l : list (string * file)) :
  filter p (sorted_reverse l) = sorted_reverse (filter p l).
Proof.
  induction l as [|e l IH]; simpl; [reflexivity|].
  rewrite filter_insert_desc by apply sorted_reverse_descending.
  destruct (p e); simpl; now rewrite IH.
Qed.

Lemma glob_json_filter (p : string * file -> bool) (d : directory) :
  glob_json (filter p d) = filter p (glob_json d).
Proof.
  unfold glob_json. induction d as [|e d IH]; simpl; [reflexivity|].
  destruct (p e) eqn:Pe, (endswith (fst e) ".json") eqn:Ee; simpl;
    rewrite ?Pe, ?Ee, IH; reflexivity.
Qed.

(** ** Dictionaries *)

Lemma dict_get_set_same (d : dict) (k : string) (v : json) :
  dict_get (dict_set d k v) k = Some v.
Proof.
  induction d as [|[k' v'] d IH]; simpl.
  - now rewrite String.eqb_refl.
  - destruct (k' =? k)%string eqn:E; simpl; rewrite E; [reflexivity | exact IH].
Qed.

Lemma dict_get_set_other (d : dict) (k k' : string) (v : json) :
  k <> k' -> dict_get (dict_set d k v) k' = dict_get d k'.
Proof.
  intros N. induction d as [|[k0 v0] d IH]; simpl.
  - apply String.eqb_neq in N. now rewrite N.
  - destruct (k0 =? k)%string eqn:E; simpl.
    + apply String.eqb_eq in E. subst k0.
      apply String.eqb_neq in N. now rewrite N.
    + now rewrite IH.
Qed.

Lemma updated_status (status : string) (clock : datetime) (a : dict) :
  dict_get (updated status clock a) "status" = Some (JStr status).
Proof.
  unfold updated.
  destruct (_ && _).
  - rewrite dict_get_set_other by discriminate. apply dict_get_set_same.
  - apply dict_get_set_same.
Qed.

Lemma updated_published_at (status : string) (clock : datetime) (a : dict) :
  dict_get (updated status clock a) "publishedAt" =
  if (status =? "published")%string && negb (truthy_opt (dict_get a "publishedAt"))
  then Some (JStr (isoformat clock))
  else dict_get a "publishedAt".
Proof.
  unfold updated.
  rewrite (dict_get_set_other a "status" "publishedAt") by discriminate.
  destruct (_ && _).
  - apply dict_get_set_same.
  - apply dict_get_set_other. discriminate.
Qed.

(** ** Directories *)

Lemma read_file_in (d : directory) (n : string) (f : file) :
  read_file d n = Some f -> In (n, f) d.
Proof.
  induction d as [|[n' f'] d IH]; simpl; [discriminate|].
  destruct (n' =? n)%string eqn:E.
  - apply String.eqb_eq in E. intros [= ->]. subst. now left.
  - intros H. right. now apply IH.
Qed.

Lemma in_read_file (d : directory) (n : string) (f : file) :
  NoDup (names d) -> In (n, f) d -> read_file d n = Some f.
Proof.
  induction d as [|[n' f'] d IH]; simpl; [contradiction|].
  intros ND [E|H].
  - injection E as -> ->. now rewrite String.eqb_refl.
  - inversion ND as [|? ? Hn ND']; subst.
    destruct (n' =? n)%string eqn:E; [|now apply IH].
    apply String.eqb_eq in E. subst n'. exfalso. apply Hn.
    change n with (fst (n, f)). now apply in_map.
Qed.

Lemma in_read_file_some (d : directory) (n : string) (f : file) :
  In (n, f) d -> read_file d n <> None.
Proof.
  induction d as [|[n' f'] d IH]; simpl; [contradiction|].
  intros [E|H].
  - injection E as -> ->. now rewrite String.eqb_refl.
  - destruct (n' =? n)%string; [discriminate | now apply IH].
Qed.

Lemma read_overwrite_same (d : directory) (n : string) (f : file) :
  read_file d n <> None -> read_file (overwrite n f d) n = Some f.
Proof.
  induction d as [|[n' f'] d IH]; simpl; [congruence|].
  destruct (n' =? n)%string eqn:E; simpl; rewrite E; [reflexivity | exact IH].
Qed.

Lemma read_overwrite_other (d : directory) (n n' : string) (f : file) :
  n <> n' -> read_file (overwrite n f d) n' = read_file d n'.
Proof.
  intros N. induction d as [|[n0 f0] d IH]; simpl; [reflexivity|].
  destruct (n0 =? n)%string eqn:E; simpl.
  - apply String.eqb_eq in E. subst n0.
    apply String.eqb_neq in N. now rewrite N.
  - now rewrite IH.
Qed.

Lemma names_overwrite (d : directory) (n : string) (f : file) :
  names (overwrite n f d) = names d.
Proof.
  induction d as [|[n0 f0] d IH]; simpl; [reflexivity|].
  destruct (n0 =? n)%string; simpl; [reflexivity | now rewrite IH].
Qed.

Lemma read_file_app (d1 d2 : directory) (n : string) :
  read_file (d1 ++ d2)%list n =
  match read_file d1 n with
  | Some f => Some f
  | None => read_file d2 n
  end.
Proof.
  induction d1 as [|[n' f'] d1 IH]; simpl; [reflexivity|].
  destruct (n' =? n)%string; [reflexivity | exact IH].
Qed.

Lemma read_insert_at (k : nat) (d : directory) (n n' : string) (f : file) :
  read_file d n = None ->
  read_file (insert_at k (n, f) d) n' =
  if (n =? n')%string then Some f else read_file d n'.
Proof.
  intros H. unfold insert_at.
  assert (Hd : forall m, read_file d m =
                         match read_file (firstn k d) m with
                         | Some f => Some f
                         | None => read_file (skipn k d) m
                         end).
  { intros m. now rewrite <- read_file_app, firstn_skipn. }
  rewrite read_file_app. simpl. rewrite Hd in H. rewrite (Hd n').
  destruct (read_file (firstn k d) n) eqn:E1; [discriminate|].
  destruct (n =? n')%string eqn:E.
  - apply String.eqb_eq in E. subst n'. now rewrite E1.
  - destruct (read_file (firstn k d) n'); reflexivity.
Qed.

Section Writes.

Variable new_slot : directory -> string -> nat.

Lemma read_write_same (d : directory) (n : string) (f : file) :
  read_file (write_file new_slot n f d) n = Some f.
Proof.
  unfold write_file. destruct (read_file d n) eqn:E.
  - apply read_overwrite_same. congruence.
  - rewrite read_insert_at by exact E. now rewrite String.eqb_refl.
Qed.

Lemma read_write_other (d : directory) (n n' : string) (f : file) :
  n <> n' -> read_file (write_file new_slot n f d) n' = read_file d n'.
Proof.
  intros N. unfold write_file. destruct (read_file d n) eqn:E.
  - now apply read_overwrite_other.
  - rewrite read_insert_at by exact E.
    apply String.eqb_neq in N. now rewrite N.
Qed.

Lemma write_existing (d : directory) (n : string) (f f' : file) :
  In (n, f') d -> write_file new_slot n f d = overwrite n f d.
Proof.
  intros H. unfold write_file.
  destruct (read_file d n) eqn:E; [reflexivity|].
  now apply in_read_file_some in H.
Qed.

End Writes.

Lemma glob_json_in (d : directory) (e : string * file) :
  In e (glob_json d) -> In e d.
Proof. unfold glob_json. intros H. now apply filter_In in H. Qed.

(** ** The scans in terms of the first matching record *)

Lemma first_match_in (slug : string) (paths : list (string * file))
    (n : string) (a : dict) :
  first_match slug paths = Some (n, a) ->
  In (n, Document (JObj a)) paths /\ eq_str (dict_get a "slug") slug = true.
Proof.
  induction paths as [|[n' f] paths IH]; simpl; [discriminate|].
  destruct f as [|[]]; try (intros H; destruct (IH H); auto).
  destruct (eq_str (dict_get kvs "slug") slug) eqn:E.
  - intros [= -> ->]. auto.
  - intros H. destruct (IH H); auto.
Qed.

Lemma first_match_none (slug : string) (paths : list (string * file)) :
  first_match slug paths = None <->
  (forall e, In e paths -> carries slug e = false).
Proof.
  induction paths as [|[n' f] paths IH]; simpl.
  - split; [contradiction | reflexivity].
  - assert (G : carries slug (n', f) = false ->
                (first_match slug paths = None <->
                 forall e, (n', f) = e \/ In e paths -> carries slug e = false)).
    { intros C. rewrite IH. split.
      - intros H e [<-|He]; auto.
      - intros H e He. apply H. now right. }
    destruct f as [|[]]; try (apply G; reflexivity).
    destruct (eq_str (dict_get kvs "slug") slug) eqn:E.
    + split; [discriminate|].
      intros H. specialize (H _ (or_introl eq_refl)).
      unfold carries in H. simpl in H. congruence.
    + apply G. exact E.
Qed.

Lemma get_article_loop_first_match (slug : string) (paths : list (string * file)) :
  get_article_loop slug paths =
  match first_match slug paths with
  | Some (_, a) => json_dumps 2 (JObj a)
  | None => not_found slug
  end.
Proof.
  induction paths as [|[n f] paths IH]; simpl; [reflexivity|].
  destruct f as [|[]]; try exact IH.
  unfold get_article_try. simpl.
  destruct (eq_str (dict_get kvs "slug") slug); [reflexivity | exact IH].
Qed.

Lemma update_try_match (slug status : string) (clock : datetime) (a : dict) :
  update_article_status_try slug status clock (Document (JObj a)) =
  if eq_str (dict_get a "slug") slug
  then Return (Some (JObj (updated status clock a)))
  else Return None.
Proof.
  unfold update_article_status_try, updated. simpl.
  destruct (eq_str (dict_get a "slug") slug); [|reflexivity].
  simpl. destruct (_ && _); reflexivity.
Qed.

Lemma update_loop_first_match (new_slot : directory -> string -> nat)
    (slug status : string) (clock : datetime) (d : directory)
    (paths : list (string * file)) :
  update_article_status_loop new_slot slug status clock d paths =
  match first_match slug paths with
  | Some (n, a) =>
      ("Article '" ++ slug ++ "' status updated to: " ++ status,
       write_file new_slot n (Document (JObj (updated status clock a))) d)
  | None => (not_found slug, d)
  end.
Proof.
  induction paths as [|[n f] paths IH]; simpl; [reflexivity|].
  destruct f as [|j]; [exact IH|].
  destruct j; try exact IH.
  rewrite update_try_match.
  destruct (eq_str (dict_get kvs "slug") slug); [reflexivity | exact IH].
Qed.

Lemma delete_loop_first_match (slug : string) (d : directory)
    (paths : list (string * file)) :
  delete_article_loop slug d paths =
  match first_match slug paths with
  | Some (n, _) => ("Article deleted: " ++ slug, unlink n d)
  | None => (not_found slug, d)
  end.
Proof.
  induction paths as [|[n f] paths IH]; simpl; [reflexivity|].
  destruct f as [|[]]; try exact IH.
  unfold delete_article_try. simpl.
  destruct (eq_str (dict_get kvs "slug") slug); [reflexivity | exact IH].
Qed.

(** ** What a listing holds *)

Lemma get_articles_try_some (status : string) (f : file) (j : json) :
  get_articles_try status f = Return (Some j) ->
  f = Document j /\
  (status = "all" \/
   exists a, j = JObj a /\ eq_str (dict_get a "status") status = true).
Proof.
  unfold get_articles_try. destruct f as [|j0]; simpl; [discriminate|].
  destruct (status =? "all")%string eqn:E.
  - intros [= ->]. apply String.eqb_eq in E. auto.
  - destruct j0; simpl; try discriminate.
    destruct (eq_str (dict_get kvs "status") status) eqn:S; [|discriminate].
    intros [= <-]. split; [reflexivity|]. right. eauto.
Qed.

Lemma get_articles_loop_in (status : string) (limit : Z)
    (paths : list (string * file)) (acc : list json) (j : json) :
  In j (get_articles_loop status limit paths acc) ->
  In j acc \/
  exists n, In (n, Document j) paths /\
            (status = "all" \/
             exists a, j = JObj a /\ eq_str (dict_get a "status") status = true).
Proof.
  revert acc. induction paths as [|[n f] paths IH]; intros acc; simpl; [auto|].
  assert (K : In j (get_articles_loop status limit paths acc) ->
              In j acc \/
              exists n0, ((n, f) = (n0, Document j) \/ In (n0, Document j) paths) /\
                (status = "all" \/
                 exists a, j = JObj a /\ eq_str (dict_get a "status") status = true)).
  { intros H. destruct (IH _ H) as [|(n0 & H1 & H2)]; eauto. }
  destruct (get_articles_try status f) as [[j0|]|] eqn:T; try exact K.
  apply get_articles_try_some in T as [-> T].
  assert (A : In j (acc ++ [j0])%list ->
              In j acc \/
              exists n0, ((n, Document j0) = (n0, Document j) \/ In (n0, Document j) paths) /\
                (status = "all" \/
                 exists a, j = JObj a /\ eq_str (dict_get a "status") status = true)).
  { intros H. apply in_app_or in H as [H|[->|[]]]; eauto. }
  destruct (_ >=? _)%Z; [exact A|].
  intros H. destruct (IH _ H) as [H'|(n0 & H1 & H2)]; eauto.
Qed.

Lemma listed_in (status : string) (limit : Z) (d : directory) (j : json) :
  In j (listed status limit d) ->
  exists n, In (n, Document j) (glob_json d) /\
            (status = "all" \/
             exists a, j = JObj a /\ eq_str (dict_get a "status") status = true).
Proof.
  unfold listed. intros H.
  apply get_articles_loop_in in H as [[]|(n & H1 & H2)].
  exists n. split; [|exact H2].
  eapply Permutation_in; [apply sorted_reverse_perm | exact H1].
Qed.

(** ** Slugs that no record carries *)

Lemma existsb_carries_false (slug : string) (paths : list (string * file)) :
  existsb (carries slug) paths = false <-> first_match slug paths = None.
Proof.
  rewrite first_match_none. split.
  - intros H e He. destruct (carries slug e) eqn:C; [|reflexivity].
    assert (existsb (carries slug) paths = true) by (apply existsb_exists; eauto).
    congruence.
  - intros H. destruct (existsb (carries slug) paths) eqn:E; [|reflexivity].
    apply existsb_exists in E as (e & He & C). rewrite (H _ He) in C. discriminate.
Qed.

Lemma existsb_carries_true (slug : string) (paths : list (string * file)) :
  existsb (carries slug) paths = true ->
  exists n a, first_match slug paths = Some (n, a).
Proof.
  intros H. destruct (first_match slug paths) as [[n a]|] eqn:F; [eauto|].
  apply existsb_carries_false in F. congruence.
Qed.

Lemma listed_without_slug (slug status : string) (limit : Z) (d : directory)
    (j : json) :
  first_match slug (glob_json d) = None ->
  In j (listed status limit d) -> has_slug slug j = false.
Proof.
  intros F H. apply listed_in in H as (n & H & _).
  rewrite first_match_none in F. exact (F _ H).
Qed.

(** ** Removing a file *)

Lemma unlink_in (d : directory) (n : string) (e : string * file) :
  NoDup (names d) -> In e (unlink n d) -> In e d /\ fst e <> n.
Proof.
  induction d as [|[n' f'] d IH]; simpl; [contradiction|].
  intros ND. inversion ND as [|? ? Hn ND']; subst.
  destruct (n' =? n)%string eqn:E.
  - apply String.eqb_eq in E. subst n'. intros H. split; [now right|].
    intros <-. apply Hn. now apply in_map.
  - intros [<-|H].
    + split; [now left|]. simpl. now apply String.eqb_neq.
    + destruct (IH ND' H). auto.
Qed.

Lemma at_most_one (A : Type) (l : list A) (x y : A) :
  List.length l <= 1 -> In x l -> In y l -> x = y.
Proof.
  destruct l as [|a [|b l]]; simpl; try lia; intuition congruence.
Qed.

Lemma unlink_only_carrier (slug : string) (d : directory) (n : string) (a : dict) :
  NoDup (names d) ->
  List.length (filter (carries slug) (glob_json d)) <= 1 ->
  first_match slug (glob_json d) = Some (n, a) ->
  first_match slug (glob_json (unlink n d)) = None.
Proof.
  intros ND L F. apply first_match_in in F as [F1 F2].
  apply first_match_none. intros e He.
  destruct (carries slug e) eqn:C; [exfalso | reflexivity].
  unfold glob_json in He. apply filter_In in He as [He Hj].
  apply unlink_in in He as [He Hn]; [|exact ND].
  apply Hn.
  assert (E : e = (n, Document (JObj a))).
  { apply (at_most_one _ _ _ _ L).
    - apply filter_In. split; [|exact C]. apply filter_In. auto.
    - apply filter_In. split; [exact F1 | exact F2]. }
  now rewrite E.
Qed.

(** ** Not-found outcomes *)

(** C6. When no stored record carries the slug, get_article,
    update_article_status and delete_article each return the message
    "Article not found: <slug>" as their result, and the two operations
    that can write leave the directory as it was.  The exceptions of the
    scanned files are handled inside the loops: the operations are total
    functions to a message. *)
Theorem not_found_is_a_normal_result
    (new_slot : directory -> string -> nat) (slug status : string)
    (clock : datetime) (d : directory) :
  existsb (carries slug) (glob_json d) = false ->
  get_article slug d = not_found slug /\
  update_article_status new_slot slug status clock d = (not_found slug, d) /\
  delete_article slug d = (not_found slug, d).
Proof.
  intros H. apply existsb_carries_false in H.
  unfold get_article, update_article_status, delete_article.
  rewrite get_article_loop_first_match, update_loop_first_match,
    delete_loop_first_match, H.
  auto.
Qed.

Lemma not_found_is_a_normal_result_witness :
  get_article "worst-gin" twins = not_found "worst-gin" /\
  update_article_status slot_last "worst-gin" "draft" later twins
    = (not_found "worst-gin", twins) /\
  delete_article "worst-gin" twins = (not_found "worst-gin", twins).
Proof.
  apply (not_found_is_a_normal_result slot_last "worst-gin" "draft" later twins).
  reflexivity.
Defined.

(** ** Status updates *)

(** C10. update_article_status does not validate the new status: on a
    slug whose first record is [a] in file [name], any string [s] is
    written as the status of that record, and the call reports success. *)
Theorem status_is_not_validated
    (new_slot : directory -> string -> nat) (slug s : string)
    (clock : datetime) (d : directory) (name : string) (a : dict) :
  first_match slug (glob_json d) = Some (name, a) ->
  fst (update_article_status new_slot slug s clock d)
    = "Article '" ++ slug ++ "' status updated to: " ++ s /\
  exists a',
    read_file (snd (update_article_status new_slot slug s clock d)) name
      = Some (Document (JObj a')) /\
    dict_get a' "status" = Some (JStr s).
Proof.
  intros F. unfold update_article_status.
  rewrite update_loop_first_match, F. simpl. split; [reflexivity|].
  exists (updated s clock a). split.
  - apply read_write_same.
  - apply updated_status.
Qed.

Lemma status_is_not_validated_witness :
  fst (update_article_status slot_last "best-gin" "archived" later gin_dir)
    = "Article 'best-gin' status updated to: archived" /\
  exists a',
    read_file (snd (update_article_status slot_last "best-gin" "archived"
                      later gin_dir)) "best-gin-20240309120000.json"
      = Some (Document (JObj a')) /\
    dict_get a' "status" = Some (JStr "archived").
Proof.
  refine (status_is_not_validated slot_last "best-gin" "archived" later gin_dir
            "best-gin-20240309120000.json" _ _).
  reflexivity.
Defined.

Section Updates.

Variable new_slot : directory -> string -> nat.

(** One update, seen from the file [name]: the names stay distinct, and
    the file holds its record updated when the scan stops at it, and its
    record as it was otherwise. *)
Lemma update_step (slug status : string) (clock : datetime) (d : directory)
    (name : string) (a : dict) :
  NoDup (names d) ->
  read_file d name = Some (Document (JObj a)) ->
  let d' := snd (update_article_status new_slot slug status clock d) in
  NoDup (names d') /\
  ((first_match slug (glob_json d) = Some (name, a) /\
    read_file d' name = Some (Document (JObj (updated status clock a)))) \/
   (first_match slug (glob_json d) <> Some (name, a) /\
    read_file d' name = Some (Document (JObj a)))).
Proof.
  intros ND R. unfold update_article_status.
  rewrite update_loop_first_match.
  destruct (first_match slug (glob_json d)) as [[n b]|] eqn:F; simpl.
  - pose proof (first_match_in _ _ _ _ F) as [I _].
    apply glob_json_in in I.
    rewrite (write_existing _ _ _ _ _ I), names_overwrite.
    split; [exact ND|].
    destruct (string_dec n name) as [->|N].
    + rewrite (in_read_file _ _ _ ND I) in R. injection R as ->.
      left. split; [reflexivity|].
      apply read_overwrite_same. now apply in_read_file_some in I.
    + right. split; [congruence|].
      now rewrite read_overwrite_other.
  - split; [exact ND|]. right. split; [discriminate | exact R].
Qed.

Lemma run_updates_keep_published_at (us : list status_update) (d : directory)
    (name : string) (a : dict) (v : json) :
  NoDup (names d) ->
  read_file d name = Some (Document (JObj a)) ->
  dict_get a "publishedAt" = Some v -> truthy v = true ->
  exists a',
    read_file (run_updates new_slot us d) name = Some (Document (JObj a')) /\
    dict_get a' "publishedAt" = Some v.
Proof.
  revert d a. induction us as [|u us IH]; intros d a ND R P T; simpl.
  - eauto.
  - destruct (update_step (target u) (new_status u) (at_time u) d name a ND R)
      as [ND' [[_ R']|[_ R']]].
    + apply (IH _ _ ND' R'); [|exact T].
      rewrite updated_published_at, P. simpl. rewrite T.
      now rewrite andb_false_r.
    + apply (IH _ _ ND' R'); assumption.
Qed.

End Updates.

(** C2. For every stored article (the record [a] of the file [name]):
    one status update leaves a record in the file; when the update is the
    one that reaches this record, asks for "published" and finds no
    publishedAt (missing, null or empty), publishedAt becomes the current
    time; publishedAt changes in no other case; and a publishedAt that is
    set stays what it is through every sequence of status updates,
    whatever their slugs and statuses. *)
Theorem published_at_is_set_once
    (new_slot : directory -> string -> nat) (d : directory) (name : string)
    (a : dict) :
  NoDup (names d) ->
  read_file d name = Some (Document (JObj a)) ->
  (forall slug status clock, exists a',
      read_file (snd (update_article_status new_slot slug status clock d)) name
        = Some (Document (JObj a')) /\
      (first_match slug (glob_json d) = Some (name, a) ->
       status = "published" ->
       truthy_opt (dict_get a "publishedAt") = false ->
       dict_get a' "publishedAt" = Some (JStr (isoformat clock))) /\
      (dict_get a' "publishedAt" <> dict_get a "publishedAt" ->
       status = "published" /\
       truthy_opt (dict_get a "publishedAt") = false)) /\
  (forall v, dict_get a "publishedAt" = Some v -> truthy v = true ->
   forall us, exists a',
      read_file (run_updates new_slot us d) name = Some (Document (JObj a')) /\
      dict_get a' "publishedAt" = Some v).
Proof.
  intros ND R. split.
  - intros slug status clock.
    destruct (update_step new_slot slug status clock d name a ND R)
      as [_ [[F R']|[F R']]].
    + exists (updated status clock a). split; [exact R'|].
      rewrite updated_published_at. split.
      * intros _ -> U. now rewrite U.
      * destruct (status =? "published")%string eqn:E;
          destruct (truthy_opt (dict_get a "publishedAt")); simpl;
          try congruence.
        apply String.eqb_eq in E. auto.
    + exists a. split; [exact R'|]. split; congruence.
  - intros v P T us.
    now apply (run_updates_keep_published_at new_slot us d name a v).
Qed.

Lemma published_at_is_set_once_witness :
  NoDup (names gin_dir) /\
  read_file gin_dir gin_name = Some (Document (JObj gin_article)) /\
  exists a',
    read_file
      (run_updates slot_last
         [StatusUpdate "best-gin" "draft" later;
          StatusUpdate "best-gin" "published" later] gin_dir) gin_name
      = Some (Document (JObj a')) /\
    dict_get a' "publishedAt" = Some (JStr "2024-03-09T12:00:00").
Proof.
  assert (ND : NoDup (names gin_dir)).
  { vm_compute. repeat constructor. intros []. }
  assert (R : read_file gin_dir gin_name = Some (Document (JObj gin_article))).
  { reflexivity. }
  split; [exact ND|]. split; [exact R|].
  refine (proj2 (published_at_is_set_once slot_last gin_dir gin_name
                   gin_article ND R) (JStr "2024-03-09T12:00:00") _ _ _);
    reflexivity.
Defined.

(** ** Deletion *)

Lemma read_none_not_name (d : directory) (n : string) :
  read_file d n = None <-> ~ In n (names d).
Proof.
  induction d as [|[n0 f0] d IH]; simpl; [tauto|].
  destruct (n0 =? n)%string eqn:E.
  - apply String.eqb_eq in E. split; [discriminate | tauto].
  - apply String.eqb_neq in E. rewrite IH. tauto.
Qed.

Lemma read_unlink_same (d : directory) (n : string) :
  NoDup (names d) -> read_file (unlink n d) n = None.
Proof.
  induction d as [|[n0 f0] d IH]; simpl; [reflexivity|].
  intros ND. inversion ND as [|? ? Hn ND']; subst.
  destruct (n0 =? n)%string eqn:E.
  - apply String.eqb_eq in E. subst. now apply read_none_not_name.
  - simpl. rewrite E. now apply IH.
Qed.

Lemma read_unlink_other (d : directory) (n n' : string) :
  n <> n' -> read_file (unlink n d) n' = read_file d n'.
Proof.
  intros N. induction d as [|[n0 f0] d IH]; simpl; [reflexivity|].
  destruct (n0 =? n)%string eqn:E; simpl.
  - apply String.eqb_eq in E. subst n0.
    apply String.eqb_neq in N. now rewrite N.
  - now rewrite IH.
Qed.

Lemma length_unlink (d : directory) (n : string) (f : file) :
  In (n, f) d -> S (List.length (unlink n d)) = List.length d.
Proof.
  induction d as [|[n0 f0] d IH]; simpl; [contradiction|].
  destruct (n0 =? n)%string eqn:E; [reflexivity|].
  intros [H|H].
  - injection H as -> _. now rewrite String.eqb_refl in E.
  - simpl. now rewrite IH.
Qed.

(** C7, as the store has it.  Deleting a slug that no record carries
    returns the not-found message and changes nothing.  Otherwise a delete
    removes one file, the file of the first record that carries the slug
    in enumeration order, and reports the deletion: in a store of
    distinctly named files that file is gone, every other file is as it
    was, and the store has one file less.  So where at most one record
    carries the slug, the slug is in no result of get_article or
    get_articles after the delete. *)
Theorem delete_removes_the_first_match (slug : string) (d : directory) :
  (existsb (carries slug) (glob_json d) = false ->
   delete_article slug d = (not_found slug, d)) /\
  (forall name a,
     NoDup (names d) ->
     first_match slug (glob_json d) = Some (name, a) ->
     delete_article slug d = ("Article deleted: " ++ slug, unlink name d) /\
     read_file (snd (delete_article slug d)) name = None /\
     (forall other, other <> name ->
        read_file (snd (delete_article slug d)) other = read_file d other) /\
     S (List.length (snd (delete_article slug d))) = List.length d) /\
  (NoDup (names d) ->
   List.length (filter (carries slug) (glob_json d)) <= 1 ->
   fst (delete_article slug d) =
     (if existsb (carries slug) (glob_json d)
      then "Article deleted: " ++ slug else not_found slug) /\
   get_article slug (snd (delete_article slug d)) = not_found slug /\
   forall status limit j,
     In j (listed status limit (snd (delete_article slug d))) ->
     has_slug slug j = false).
Proof.
  split; [|split].
  - intros H. apply existsb_carries_false in H.
    unfold delete_article. now rewrite delete_loop_first_match, H.
  - intros name a ND F.
    unfold delete_article. rewrite delete_loop_first_match, F. cbn [snd].
    pose proof (first_match_in _ _ _ _ F) as [I _]. apply glob_json_in in I.
    split; [reflexivity|]. split; [now apply read_unlink_same|]. split.
    + intros other N. apply read_unlink_other.
      intros E. apply N. symmetry. exact E.
    + exact (length_unlink _ _ _ I).
  - intros ND L.
    assert (G : forall d', first_match slug (glob_json d') = None ->
                get_article slug d' = not_found slug /\
                forall status limit j,
                  In j (listed status limit d') -> has_slug slug j = false).
    { intros d' F. split.
      - unfold get_article. now rewrite get_article_loop_first_match, F.
      - intros status limit j. now apply listed_without_slug. }
    unfold delete_article. rewrite delete_loop_first_match.
    destruct (existsb (carries slug) (glob_json d)) eqn:E.
    + destruct (existsb_carries_true _ _ E) as (n & a & F).
      rewrite F. simpl. split; [reflexivity|].
      apply G. now apply (unlink_only_carrier slug d n a).
    + apply existsb_carries_false in E. rewrite E. simpl.
      split; [reflexivity|]. now apply G.
Qed.

Lemma delete_removes_the_first_match_witness :
  delete_article "best-gin" gin_and_tonic
    = ("Article deleted: best-gin", unlink gin_name gin_and_tonic) /\
  read_file (snd (delete_article "best-gin" gin_and_tonic)) gin_name = None /\
  read_file (snd (delete_article "best-gin" gin_and_tonic)) tonic_name
    = Some (Document (JObj tonic_article)) /\
  get_article "best-gin" (snd (delete_article "best-gin" gin_and_tonic))
    = not_found "best-gin" /\
  get_article "tonic-water" (snd (delete_article "best-gin" gin_and_tonic))
    = json_dumps 2 (JObj tonic_article).
Proof.
  assert (ND : NoDup (names gin_and_tonic)).
  { vm_compute. repeat constructor; simpl; intuition discriminate. }
  assert (L : List.length (filter (carries "best-gin") (glob_json gin_and_tonic))
              <= 1).
  { vm_compute. apply le_n. }
  pose proof (delete_removes_the_first_match "best-gin" gin_and_tonic)
    as (_ & F & G).
  destruct (F gin_name gin_article ND eq_refl) as (E & R & O & _).
  destruct (G ND L) as (_ & A & _).
  split; [exact E|]. split; [exact R|]. split; [|split; [exact A|]].
  - rewrite O; [reflexivity | discriminate].
  - rewrite E. reflexivity.
Defined.

(** C7 as stated fails when two records carry the slug: after the two
    saves of "Best Gin", deleting "best-gin" succeeds and get_article
    still finds a record with that slug, the one saved second. *)
Lemma delete_leaves_the_second_match :
  ~ delete_forgets_slug "best-gin" twins /\
  fst (delete_article "best-gin" twins) = "Article deleted: best-gin" /\
  get_article "best-gin" (snd (delete_article "best-gin" twins))
    = json_dumps 2 (JObj later_article).
Proof.
  split; [|split; reflexivity].
  intros H. destruct (H eq_refl) as [G _].
  vm_compute in G. discriminate G.
Qed.

(** ** The limit of a listing *)

Lemma get_articles_try_all (f : file) :
  get_articles_try "all" f =
  match f with
  | Document j => Return (Some j)
  | Unparseable => Raise JSONDecodeError
  end.
Proof. destruct f; reflexivity. Qed.

(** With the filter "all" the loop takes the documents in order until it
    has [limit] of them, and one at least. *)
Lemma get_articles_loop_all (limit : Z) (paths : list (string * file))
    (acc : list json) :
  (Z.of_nat (List.length acc) < Z.max 1 limit)%Z ->
  get_articles_loop "all" limit paths acc =
  firstn (Z.to_nat (Z.max 1 limit)) (acc ++ documents paths).
Proof.
  revert acc. induction paths as [|[n f] paths IH]; intros acc H; simpl.
  - rewrite app_nil_r, firstn_all2; [reflexivity | lia].
  - rewrite get_articles_try_all. destruct f as [|j]; simpl.
    + now apply IH.
    + unfold documents in *. simpl.
      change (j :: flat_map document_of paths)
        with ([j] ++ flat_map document_of paths)%list.
      rewrite app_assoc.
      assert (A : List.length (acc ++ [j])%list = S (List.length acc)).
      { rewrite length_app. simpl. lia. }
      destruct (_ >=? _)%Z eqn:E; rewrite Z.geb_leb in E.
      * apply Z.leb_le in E. rewrite firstn_app.
        assert (L : List.length (acc ++ [j])%list = Z.to_nat (Z.max 1 limit))
          by lia.
        rewrite L, Nat.sub_diag, firstn_O, app_nil_r.
        rewrite <- L. now rewrite firstn_all.
      * apply Z.leb_gt in E. apply IH. lia.
Qed.

Lemma listed_all (limit : Z) (d : directory) :
  listed "all" limit d =
  firstn (Z.to_nat (Z.max 1 limit)) (documents (sorted_reverse (glob_json d))).
Proof. unfold listed. rewrite get_articles_loop_all; [reflexivity | simpl; lia]. Qed.

Lemma get_articles_loop_length (status : string) (limit : Z)
    (paths : list (string * file)) (acc : list json) :
  (Z.of_nat (List.length acc) < Z.max 1 limit)%Z ->
  (Z.of_nat (List.length (get_articles_loop status limit paths acc))
   <= Z.max 1 limit)%Z.
Proof.
  revert acc. induction paths as [|[n f] paths IH]; intros acc H; simpl; [lia|].
  destruct (get_articles_try status f) as [[j|]|]; try now apply IH.
  assert (A : List.length (acc ++ [j])%list = S (List.length acc)).
  { rewrite length_app. simpl. lia. }
  destruct (_ >=? _)%Z eqn:E; rewrite Z.geb_leb in E.
  - lia.
  - apply Z.leb_gt in E. apply IH. lia.
Qed.

(** From a limit of one on, a listing has at most [limit] articles; with
    a filter other than "all", each of them has the status asked for. *)
Lemma listed_within_limit (status : string) (limit : Z) (d : directory) :
  (1 <= limit)%Z ->
  (Z.of_nat (List.length (listed status limit d)) <= limit)%Z /\
  (status <> "all" ->
   forall j, In j (listed status limit d) ->
   exists a, j = JObj a /\ dict_get a "status" = Some (JStr status)).
Proof.
  intros L. split.
  - pose proof (get_articles_loop_length status limit
                  (sorted_reverse (glob_json d)) []) as H.
    unfold listed. simpl in H. lia.
  - intros N j H. apply listed_in in H as (n & _ & [E|(a & -> & E)]);
      [contradiction|].
    exists a. split; [reflexivity|].
    destruct (dict_get a "status") as [[]|]; simpl in E; try discriminate.
    apply String.eqb_eq in E. now subst.
Qed.

(** C1. The limit is tested after an article is appended: with a limit of
    zero, and with a negative one, the listing returns the first document
    of the store, where "at most N" allows none.  On the store that holds
    the one article "Best Gin", get_articles("all", 0) returns the text
    that starts with "Found 1 articles:". *)
Theorem get_articles_ignores_limit_zero :
  (forall limit d,
     listed "all" (Z.min limit 0) d =
     firstn 1 (documents (sorted_reverse (glob_json d)))) /\
  listed "all" 0 gin_dir = [JObj gin_article] /\
  listed "all" (-3) gin_dir = [JObj gin_article] /\
  exists text, get_articles "all" 0 gin_dir = Return text /\
               take 18 text = "Found 1 articles:" ++ nl.
Proof.
  split.
  { intros limit d. rewrite listed_all.
    replace (Z.max 1 (Z.min limit 0)) with 1%Z by lia. reflexivity. }
  split; [reflexivity|]. split; [reflexivity|].
  eexists. split; reflexivity.
Qed.

(** ** Unparseable files *)

Lemma get_articles_loop_parseable (status : string) (limit : Z)
    (paths : list (string * file)) (acc : list json) :
  get_articles_loop status limit (filter parseable paths) acc =
  get_articles_loop status limit paths acc.
Proof.
  revert acc. induction paths as [|[n f] paths IH]; intros acc; simpl;
    [reflexivity|].
  destruct f as [|j]; simpl; [apply IH|].
  destruct (get_articles_try status (Document j)) as [[a|]|]; try apply IH.
  destruct (_ >=? _)%Z; [reflexivity | apply IH].
Qed.

Lemma get_article_loop_parseable (slug : string) (paths : list (string * file)) :
  get_article_loop slug (filter parseable paths) = get_article_loop slug paths.
Proof.
  induction paths as [|[n f] paths IH]; simpl; [reflexivity|].
  destruct f as [|j]; simpl; [apply IH|].
  destruct (get_article_try slug (Document j)) as [[a|]|]; auto.
Qed.

Lemma listed_parseable (status : string) (limit : Z) (d : directory) :
  listed status limit (filter parseable d) = listed status limit d.
Proof.
  unfold listed.
  now rewrite glob_json_filter, <- filter_sorted_reverse,
    get_articles_loop_parseable.
Qed.

Lemma summary_valid (j : json) :
  valid_record j = true -> exists line, summary j = Return line.
Proof.
  destruct j; simpl; try discriminate.
  unfold summary, get_or. simpl.
  destruct (dict_get kvs "createdAt") as [[]|]; try discriminate;
    intros _; eexists; reflexivity.
Qed.

Lemma for_each_returns (A B : Type) (f : A -> outcome B) (l : list A) :
  (forall a, In a l -> exists b, f a = Return b) ->
  exists bs, for_each f l = Return bs.
Proof.
  induction l as [|a l IH]; simpl; intros H; [eauto|].
  destruct (H a (or_introl eq_refl)) as [b ->].
  destruct IH as [bs ->]; [auto|]. simpl. eauto.
Qed.

Lemma get_articles_returns (status : string) (limit : Z) (d : directory) :
  (forall j, In j (listed status limit d) -> valid_record j = true) ->
  exists text, get_articles status limit d = Return text.
Proof.
  intros H. unfold get_articles.
  destruct (listed status limit d) as [|j l] eqn:E; [eauto|].
  destruct (for_each_returns _ _ summary (j :: l)) as [lines ->].
  - intros a Ha. apply summary_valid, H, Ha.
  - simpl. eauto.
Qed.

Lemma documents_stored (valid : list (string * json)) :
  documents (map stored valid) = map snd valid.
Proof.
  unfold documents.
  induction valid as [|e valid IH]; simpl; [reflexivity|].
  now rewrite IH.
Qed.

Lemma for_each_length (A B : Type) (f : A -> outcome B) (l : list A)
    (bs : list B) :
  for_each f l = Return bs -> List.length bs = List.length l.
Proof.
  revert bs. induction l as [|a l IH]; simpl; intros bs H.
  - injection H as <-. reflexivity.
  - destruct (f a) as [b|]; simpl in H; [|discriminate].
    destruct (for_each f l) as [bs'|]; simpl in H; [|discriminate].
    injection H as <-. simpl. now rewrite (IH bs').
Qed.

(** C5. An unparseable file is skipped: a listing and a slug search give
    what they give on the directory without its unparseable files, fault
    or no fault alike.  When the files that the scan enumerates are one
    unparseable file and ten valid records, wherever the unparseable file
    comes in the order, get_articles("all", 10) lists exactly the ten
    records, newest name first, and returns the text that starts with
    "Found 10 articles:" and goes on with the ten summaries. *)
Theorem corrupt_files_are_skipped (d : directory) :
  (forall status limit,
     listed status limit d = listed status limit (filter parseable d) /\
     get_articles status limit d = get_articles status limit (filter parseable d)) /\
  (forall slug, get_article slug d = get_article slug (filter parseable d)) /\
  (forall corrupt valid,
     Permutation (glob_json d) ((corrupt, Unparseable) :: map stored valid) ->
     List.length valid = 10 ->
     forallb (fun e => valid_record (snd e)) valid = true ->
     listed "all" 10 d = documents (sorted_reverse (glob_json d)) /\
     Permutation (listed "all" 10 d) (map snd valid) /\
     exists lines,
       for_each summary (listed "all" 10 d) = Return lines /\
       List.length lines = 10 /\
       get_articles "all" 10 d =
         Return (join nl (("Found 10 articles:" ++ nl) :: lines))).
Proof.
  split; [|split].
  - intros status limit. unfold get_articles.
    now rewrite listed_parseable.
  - intros slug. unfold get_article.
    now rewrite glob_json_filter, get_article_loop_parseable.
  - intros corrupt valid P L V.
    assert (D : Permutation (documents (sorted_reverse (glob_json d)))
                  (map snd valid)).
    { rewrite <- documents_stored.
      change (documents (map stored valid))
        with (documents ((corrupt, Unparseable) :: map stored valid)).
      unfold documents. apply Permutation_flat_map.
      rewrite sorted_reverse_perm. exact P. }
    assert (E : listed "all" 10 d = documents (sorted_reverse (glob_json d))).
    { rewrite listed_all. apply firstn_all2.
      rewrite (Permutation_length D), length_map, L. simpl. lia. }
    assert (Q : Permutation (listed "all" 10 d) (map snd valid)).
    { now rewrite E. }
    assert (N : List.length (listed "all" 10 d) = 10).
    { now rewrite (Permutation_length Q), length_map. }
    split; [exact E|]. split; [exact Q|].
    destruct (for_each_returns _ _ summary (listed "all" 10 d)) as [lines S].
    { intros j Hj. apply summary_valid.
      apply (Permutation_in _ Q) in Hj. apply in_map_iff in Hj as (e & <- & He).
      rewrite forallb_forall in V. now apply V. }
    exists lines. split; [exact S|].
    split; [now rewrite (for_each_length _ _ _ _ _ S)|].
    unfold get_articles. rewrite S, N.
    destruct (listed "all" 10 d); [discriminate N | reflexivity].
Qed.

Lemma corrupt_files_are_skipped_witness :
  nth_error (sorted_reverse (glob_json eleven_files)) 5
    = Some ("post-05a.json", Unparseable) /\
  listed "all" 10 eleven_files = List.rev (map snd ten_records) /\
  exists lines,
    for_each summary (listed "all" 10 eleven_files) = Return lines /\
    List.length lines = 10 /\
    get_articles "all" 10 eleven_files =
      Return (join nl (("Found 10 articles:" ++ nl) :: lines)).
Proof.
  split; [reflexivity|].
  pose proof (proj2 (proj2 (corrupt_files_are_skipped eleven_files))
                "post-05a.json" ten_records (Permutation_refl _) eq_refl eq_refl)
    as (E & _ & T).
  split; [rewrite E; reflexivity | exact T].
Defined.

(** ** Timestamps *)

Lemma all_chars_append (p : ascii -> bool) (a b : string) :
  all_chars p (a ++ b) = all_chars p a && all_chars p b.
Proof.
  induction a as [|c a IH]; simpl; [reflexivity|].
  now rewrite IH, andb_assoc.
Qed.

Lemma is_digit_digit (k : Z) : (0 <= k < 10)%Z -> is_digit (digit k) = true.
Proof.
  intros H.
  assert (E : (k = 0 \/ k = 1 \/ k = 2 \/ k = 3 \/ k = 4 \/ k = 5 \/ k = 6
               \/ k = 7 \/ k = 8 \/ k = 9)%Z) by lia.
  repeat destruct E as [->|E]; try subst k; reflexivity.
Qed.

(** A number below [10^w] is padded to exactly [w] digits. *)
Lemma zero_padded_digits (w : nat) (n : Z) :
  (0 <= n < 10 ^ Z.of_nat w)%Z ->
  String.length (zero_padded w n) = w /\
  all_chars is_digit (zero_padded w n) = true.
Proof.
  revert n. induction w as [|w IH]; intros n H.
  - simpl in *. assert (n = 0)%Z as -> by lia. split; reflexivity.
  - rewrite Nat2Z.inj_succ, Z.pow_succ_r in H by lia.
    destruct (IH (n / 10)%Z) as [L D].
    { split; [apply Z.div_pos; lia | apply Z.div_lt_upper_bound; lia]. }
    cbn [zero_padded]. rewrite length_append, all_chars_append, L, D. simpl.
    rewrite is_digit_digit by (apply Z.mod_pos_bound; lia).
    split; [lia | reflexivity].
Qed.

Lemma two_digits (n : Z) :
  (0 <= n < 100)%Z ->
  exists a b, zero_padded 2 n = String a (String b "") /\
              is_digit a = true /\ is_digit b = true.
Proof.
  intros H. destruct (zero_padded_digits 2 n) as [L D]; [simpl; lia|].
  destruct (zero_padded 2 n) as [|a [|b [|]]]; try discriminate.
  simpl in D. rewrite andb_true_r in D. apply andb_true_iff in D as [].
  eauto.
Qed.

Lemma four_digits (n : Z) :
  (0 <= n < 10000)%Z ->
  exists a b c d,
    zero_padded 4 n = String a (String b (String c (String d ""))) /\
    is_digit a = true /\ is_digit b = true /\
    is_digit c = true /\ is_digit d = true.
Proof.
  intros H. destruct (zero_padded_digits 4 n) as [L D]; [simpl; lia|].
  destruct (zero_padded 4 n) as [|a [|b [|c [|d [|]]]]]; try discriminate.
  simpl in D. rewrite andb_true_r in D.
  apply andb_true_iff in D as [? D].
  apply andb_true_iff in D as [? D].
  apply andb_true_iff in D as [? D].
  exists a, b, c, d. auto.
Qed.

Lemma valid_datetime_ranges (t : datetime) :
  valid_datetime t = true ->
  (0 <= year t < 10000 /\ 0 <= month t < 100 /\ 0 <= day t < 100 /\
   0 <= hour t < 100 /\ 0 <= minute t < 100 /\ 0 <= second t < 100 /\
   0 <= microsecond t < 1000000)%Z.
Proof.
  unfold valid_datetime. rewrite !andb_true_iff.
  rewrite !Z.leb_le, !Z.ltb_lt. lia.
Qed.

Lemma strftime_well_formed (t : datetime) :
  valid_datetime t = true -> is_timestamp14 (strftime_YmdHMS t) = true.
Proof.
  intros V. apply valid_datetime_ranges in V as (Y & M & D & h & m & s & _).
  destruct (zero_padded_digits 4 (year t)) as [LY DY]; [simpl; lia|].
  destruct (zero_padded_digits 2 (month t)) as [LM DM]; [simpl; lia|].
  destruct (zero_padded_digits 2 (day t)) as [LD DD]; [simpl; lia|].
  destruct (zero_padded_digits 2 (hour t)) as [Lh Dh]; [simpl; lia|].
  destruct (zero_padded_digits 2 (minute t)) as [Lm Dm]; [simpl; lia|].
  destruct (zero_padded_digits 2 (second t)) as [Ls Ds]; [simpl; lia|].
  unfold is_timestamp14, strftime_YmdHMS.
  rewrite !length_append, !all_chars_append, LY, LM, LD, Lh, Lm, Ls,
    DY, DM, DD, Dh, Dm, Ds.
  reflexivity.
Qed.

Lemma isoformat_well_formed (t : datetime) :
  valid_datetime t = true -> is_iso8601 (isoformat t) = true.
Proof.
  intros V. apply valid_datetime_ranges in V as (Y & M & D & h & m & s & u).
  destruct (four_digits _ Y) as (y1 & y2 & y3 & y4 & EY & ? & ? & ? & ?).
  destruct (two_digits _ M) as (m1 & m2 & EM & ? & ?).
  destruct (two_digits _ D) as (d1 & d2 & ED & ? & ?).
  destruct (two_digits _ h) as (h1 & h2 & Eh & ? & ?).
  destruct (two_digits _ m) as (n1 & n2 & Em & ? & ?).
  destruct (two_digits _ s) as (s1 & s2 & Es & ? & ?).
  destruct (zero_padded_digits 6 (microsecond t)) as [Lu Du]; [simpl; lia|].
  unfold isoformat. rewrite EY, EM, ED, Eh, Em, Es.
  cbn [append is_iso8601 string_of_list_ascii all_chars].
  repeat match goal with H : is_digit _ = true |- _ => rewrite H; clear H end.
  cbn [andb].
  destruct (microsecond t =? 0)%Z; [reflexivity|].
  cbn [append]. rewrite Lu, Du. reflexivity.
Qed.

(** ** Saving *)

Lemma endswith_append (a b : string) : endswith (a ++ b) b = true.
Proof.
  induction a as [|c a IH].
  - destruct b; simpl; rewrite ?Ascii.eqb_refl, ?String.eqb_refl; reflexivity.
  - simpl. rewrite IH. apply orb_true_r.
Qed.

Lemma read_none_not_in (d : directory) (n : string) (e : string * file) :
  read_file d n = None -> In e d -> fst e <> n.
Proof.
  intros R I N. destruct e as [n' f]. simpl in N. subst n'.
  now apply in_read_file_some in I.
Qed.

Lemma overwrite_in (d : directory) (n : string) (f : file) (e : string * file) :
  NoDup (names d) -> In e (overwrite n f d) ->
  e = (n, f) \/ (In e d /\ fst e <> n).
Proof.
  induction d as [|[n0 f0] d IH]; simpl; [contradiction|].
  intros ND. inversion ND as [|? ? Hn ND']; subst.
  destruct (n0 =? n)%string eqn:E.
  - apply String.eqb_eq in E. subst n0. intros [<-|H]; [now left|].
    right. split; [now right|].
    intros <-. apply Hn. now apply in_map.
  - intros [<-|H].
    + right. split; [now left|]. simpl. now apply String.eqb_neq.
    + destruct (IH ND' H) as [|[]]; auto.
Qed.

Lemma write_file_in (new_slot : directory -> string -> nat) (d : directory)
    (n : string) (f : file) (e : string * file) :
  NoDup (names d) -> In e (write_file new_slot n f d) ->
  e = (n, f) \/ (In e d /\ fst e <> n).
Proof.
  intros ND. unfold write_file. destruct (read_file d n) eqn:R.
  - now apply overwrite_in.
  - unfold insert_at. intros H.
    apply in_app_or in H as [H|[<-|H]]; [right | now left | right].
    + assert (I : In e d).
      { rewrite <- (firstn_skipn (new_slot d n) d). apply in_or_app. now left. }
      split; [exact I | now apply (read_none_not_in d)].
    + assert (I : In e d).
      { rewrite <- (firstn_skipn (new_slot d n) d). apply in_or_app. now right. }
      split; [exact I | now apply (read_none_not_in d)].
Qed.

(** The only record with the slug is the first match. *)
Lemma first_match_only (slug : string) (paths : list (string * file))
    (n : string) (a : dict) :
  In (n, Document (JObj a)) paths ->
  eq_str (dict_get a "slug") slug = true ->
  (forall e, In e paths -> carries slug e = true -> e = (n, Document (JObj a))) ->
  first_match slug paths = Some (n, a).
Proof.
  intros I S U.
  destruct (first_match slug paths) as [[n' a']|] eqn:F.
  - apply first_match_in in F as [F1 F2].
    specialize (U _ F1 F2). now injection U as -> ->.
  - rewrite first_match_none in F. specialize (F _ I).
    unfold carries in F. simpl in F. congruence.
Qed.

Section Saving.

Variable ARTICLES_DIR : string.
Variable new_slot : directory -> string -> nat.
Variables title content meta_description primary_keyword : string.
Variable secondary_keywords : list string.
Variable image_url : string.
Variable schema_markup : option dict.
Variables clock1 clock2 : datetime.
Variable d : directory.

Let slug := slugify title.
Let article_id := slug ++ "-" ++ strftime_YmdHMS clock1.
Let article :=
  new_article article_id slug title content meta_description primary_keyword
    secondary_keywords image_url schema_markup (isoformat clock2).
Let file_name := article_id ++ ".json".
Let file_path := path_join ARTICLES_DIR file_name.
Let saved :=
  save_article ARTICLES_DIR new_slot title content meta_description
    primary_keyword secondary_keywords image_url schema_markup clock1 clock2 d.

(** The two ways a save ends: the file is written and the message
    returned, or [open] raises and the directory stays as it is. *)
Lemma save_article_outcome :
  saved =
  if can_open file_path file_name
  then (Return ("Article saved successfully!" ++ nl ++ "ID: " ++ article_id ++ nl
                ++ "Slug: " ++ slug ++ nl ++ "Path: " ++ file_path),
        write_file new_slot file_name (Document (JObj article)) d)
  else (Raise OSError, d).
Proof.
  unfold saved, save_article. fold slug. fold article_id. fold file_name.
  fold file_path. destruct (can_open file_path file_name); reflexivity.
Qed.

Lemma save_article_returned (text : string) :
  fst saved = Return text ->
  can_open file_path file_name = true /\
  text = "Article saved successfully!" ++ nl ++ "ID: " ++ article_id ++ nl
         ++ "Slug: " ++ slug ++ nl ++ "Path: " ++ file_path /\
  snd saved = write_file new_slot file_name (Document (JObj article)) d.
Proof.
  rewrite save_article_outcome.
  destruct (can_open file_path file_name); simpl; [|discriminate].
  intros [= <-]. auto.
Qed.

Lemma save_article_raised :
  can_open file_path file_name = false -> saved = (Raise OSError, d).
Proof. intros H. now rewrite save_article_outcome, H. Qed.

Lemma save_article_writes (text : string) :
  fst saved = Return text ->
  snd saved = write_file new_slot file_name (Document (JObj article)) d.
Proof. intros H. now apply save_article_returned in H. Qed.

Lemma save_article_stored (text : string) :
  fst saved = Return text ->
  read_file (snd saved) file_name = Some (Document (JObj article)).
Proof.
  intros H. rewrite (save_article_writes _ H). apply read_write_same.
Qed.

Lemma save_article_finds_some (text : string) :
  fst saved = Return text ->
  exists name a,
    first_match slug (glob_json (snd saved)) = Some (name, a).
Proof.
  intros H.
  destruct (first_match slug (glob_json (snd saved))) as [[n a]|] eqn:F; [eauto|].
  exfalso. rewrite first_match_none in F.
  assert (I : In (file_name, Document (JObj article)) (glob_json (snd saved))).
  { apply filter_In. split; [|apply endswith_append].
    apply read_file_in, (save_article_stored _ H). }
  specialize (F _ I). unfold carries in F. simpl in F.
  now rewrite String.eqb_refl in F.
Qed.

Lemma save_article_first_match (text : string) :
  fst saved = Return text ->
  NoDup (names d) ->
  forallb (fun e => negb (carries slug e) || (fst e =? file_name)%string)
    (glob_json d) = true ->
  first_match slug (glob_json (snd saved)) = Some (file_name, article).
Proof.
  intros H ND U. rewrite forallb_forall in U.
  apply first_match_only.
  - apply filter_In. split; [|apply endswith_append].
    apply read_file_in, (save_article_stored _ H).
  - simpl. apply String.eqb_refl.
  - intros e He C. unfold glob_json in He. apply filter_In in He as [He J].
    rewrite (save_article_writes _ H) in He.
    apply write_file_in in He as [E|[He N]]; [exact E | | exact ND].
    exfalso.
    assert (G : In e (glob_json d)) by (apply filter_In; auto).
    specialize (U _ G). rewrite C in U. simpl in U.
    apply String.eqb_eq in U. contradiction.
Qed.

End Saving.




(** C3, as the store has it.  Slugs are not unique and get_article
    returns the first match.  When save_article returns, get_article with
    the slug of the new article returns the first stored record with that
    slug in enumeration order; this is the record just saved, with the
    fields the caller gave and a well-formed id, createdAt and
    publishedAt, when no other stored file carries the slug (the files
    have distinct names, and the two readings of the clock are datetimes
    with a four-digit year). *)
Theorem round_trip_of_a_fresh_slug (ARTICLES_DIR : string)
    (new_slot : directory -> string -> nat)
    (title content meta_description primary_keyword : string)
    (secondary_keywords : list string) (image_url : string)
    (schema_markup : option dict) (clock1 clock2 : datetime) (d : directory)
    (message : string) :
  fst (save_article ARTICLES_DIR new_slot title content meta_description
         primary_keyword secondary_keywords image_url schema_markup
         clock1 clock2 d) = Return message ->
  let slug := slugify title in
  let d' :=
    snd (save_article ARTICLES_DIR new_slot title content meta_description
           primary_keyword secondary_keywords image_url schema_markup
           clock1 clock2 d) in
  (exists name a,
     first_match slug (glob_json d') = Some (name, a) /\
     In (name, Document (JObj a)) (glob_json d') /\
     dict_get a "slug" = Some (JStr slug) /\
     get_article slug d' = json_dumps 2 (JObj a)) /\
  (valid_datetime clock1 = true ->
   valid_datetime clock2 = true ->
   NoDup (names d) ->
   forallb
     (fun e =>
        negb (carries slug e)
        || (fst e =? (slug ++ "-" ++ strftime_YmdHMS clock1) ++ ".json")%string)
     (glob_json d) = true ->
   round_trip ARTICLES_DIR new_slot title content meta_description
     primary_keyword secondary_keywords image_url schema_markup clock1 clock2 d).
Proof.
  intros R slug d'. split.
  - destruct (save_article_finds_some _ _ _ _ _ _ _ _ _ _ _ _ _ R)
      as (name & a & F).
    exists name, a. fold slug in F. fold d' in F.
    pose proof (first_match_in _ _ _ _ F) as [I S].
    split; [exact F|]. split; [exact I|]. split.
    + destruct (dict_get a "slug") as [[]|]; simpl in S; try discriminate.
      apply String.eqb_eq in S. now subst.
    + unfold get_article. now rewrite get_article_loop_first_match, F.
  - intros V1 V2 ND U. unfold round_trip.
    pose proof (save_article_first_match ARTICLES_DIR new_slot title content
                  meta_description primary_keyword secondary_keywords image_url
                  schema_markup clock1 clock2 d message R ND U) as F.
    do 2 eexists. split; [exact F|].
    split.
    { unfold get_article. now rewrite get_article_loop_first_match, F. }
    repeat split; try reflexivity.
    + exists (strftime_YmdHMS clock1).
      split; [reflexivity | now apply strftime_well_formed].
    + exists (isoformat clock2).
      split; [reflexivity | now apply isoformat_well_formed].
    + exists (isoformat clock2).
      split; [reflexivity | now apply isoformat_well_formed].
Qed.

Lemma round_trip_of_a_fresh_slug_witness :
  round_trip "articles_data" slot_last "Tonic Water" "tonic body" "about tonic"
    "tonic" ["quinine"] "tonic.png" None later later gin_dir.
Proof.
  refine (proj2 (round_trip_of_a_fresh_slug "articles_data" slot_last
                   "Tonic Water" "tonic body" "about tonic" "tonic" ["quinine"]
                   "tonic.png" None later later gin_dir _ eq_refl)
            eq_refl eq_refl _ eq_refl).
  vm_compute. repeat constructor. intros [].
Defined.

(** C3 as stated fails when the store already holds a record with the
    same slug: after "Best Gin" was saved at noon, saving "Best Gin" again
    five seconds later with another body and fetching "best-gin" returns
    the record saved at noon, with the body given then. *)
Lemma round_trip_fails_on_a_second_save :
  ~ round_trip "articles_data" slot_last "Best Gin" "new body" "about gin" "gin"
      ["tonic"] "gin.png" None later later gin_dir /\
  get_article "best-gin"
    (snd (save_article "articles_data" slot_last "Best Gin" "new body"
            "about gin" "gin" ["tonic"] "gin.png" None later later gin_dir))
    = json_dumps 2 (JObj gin_article) /\
  dict_get gin_article "content" = Some (JStr "old body").
Proof.
  split; [|split; reflexivity].
  intros (name & a & F & _ & _ & _ & C & _).
  vm_compute in F. injection F as <- <-.
  vm_compute in C. discriminate C.
Qed.

(** ** The slug generator *)

(** C8. slugify computes the policy of the specification (lowercase;
    strip what is neither word character, whitespace nor hyphen; collapse
    whitespace runs to one hyphen; collapse hyphen runs; trim hyphens at
    both ends); "Best Gin & Tonic!!" gives "best-gin-tonic"; a text
    without word characters, and so a text without retainable characters,
    gives the empty string. *)
Theorem slugify_follows_the_policy :
  (forall text, slugify text = slugify_policy text) /\
  slugify "Best Gin & Tonic!!" = "best-gin-tonic" /\
  (forall text,
     all_chars (fun c => negb (is_word c)) text = true -> slugify text = "") /\
  (forall text,
     all_chars (fun c => negb (retainable c)) text = true -> slugify text = "").
Proof.
  split; [exact slugify_eq_policy|].
  split; [reflexivity|].
  assert (W : forall text,
             all_chars (fun c => negb (is_word c)) text = true ->
             slugify text = "").
  { intros text H. rewrite slugify_eq_policy. now apply slugify_policy_no_word. }
  split; [exact W|].
  intros text H. apply W.
  apply all_chars_impl with (2 := H).
  intros c. unfold retainable. destruct (is_word c); [discriminate | reflexivity].
Qed.

(** C9. slugify is idempotent. *)
Theorem slugify_idempotent (x : string) : slugify (slugify x) = slugify x.
Proof. rewrite !slugify_eq_policy. apply slugify_policy_idem. Qed.

Lemma slugify_follows_the_policy_witness : slugify "  -- !? (%)" = "".
Proof.
  refine (proj1 (proj2 (proj2 slugify_follows_the_policy)) "  -- !? (%)" _).
  reflexivity.
Defined.

(** ** The scenario of section 8 *)

(** Create "Best Gin"; set it to draft, then to published again; delete
    it.  The slug is "best-gin", publishedAt stays the creation time, and
    the last fetch finds nothing. *)
Example scenario_best_gin :
  let d1 := gin_dir in
  let d2 := snd (update_article_status slot_last "best-gin" "draft" later d1) in
  let d3 := snd (update_article_status slot_last "best-gin" "published" later d2) in
  let d4 := snd (delete_article "best-gin" d3) in
  first_match "best-gin" (glob_json d1) = Some (gin_name, gin_article) /\
  first_match "best-gin" (glob_json d2)
    = Some (gin_name, dict_set gin_article "status" (JStr "draft")) /\
  first_match "best-gin" (glob_json d3) = Some (gin_name, gin_article) /\
  get_article "best-gin" d4 = "Article not found: best-gin".
Proof. repeat split; reflexivity. Qed.

(** * Further properties *)

(** ** The listing, in full *)

Lemma get_articles_try_passes (status : string) (j : json) :
  get_articles_try status (Document j) =
  if passes status j then Return (Some j)
  else match j with
       | JObj _ => Return None
       | _ => Raise AttributeError
       end.
Proof.
  unfold get_articles_try, passes. simpl.
  destruct (status =? "all")%string; simpl; [reflexivity|].
  destruct j; reflexivity.
Qed.

Lemma get_articles_loop_prefix (status : string) (limit : Z)
    (paths : list (string * file)) (acc : list json) :
  (Z.of_nat (List.length acc) < Z.max 1 limit)%Z ->
  get_articles_loop status limit paths acc =
  firstn (Z.to_nat (Z.max 1 limit))
    (acc ++ filter (passes status) (documents paths)).
Proof.
  revert acc. induction paths as [|[n f] paths IH]; intros acc H.
  - simpl. rewrite app_nil_r, firstn_all2; [reflexivity | lia].
  - cbn [get_articles_loop]. destruct f as [|j].
    + cbn. now apply IH.
    + rewrite get_articles_try_passes.
      unfold documents in *. cbn [flat_map document_of snd app filter].
      destruct (passes status j) eqn:P.
      * change (j :: filter (passes status) (flat_map document_of paths))
          with ([j] ++ filter (passes status) (flat_map document_of paths))%list.
        rewrite app_assoc.
        assert (A : List.length (acc ++ [j])%list = S (List.length acc)).
        { rewrite length_app. simpl. lia. }
        destruct (_ >=? _)%Z eqn:E; rewrite Z.geb_leb in E.
        -- apply Z.leb_le in E. rewrite firstn_app.
           assert (L : List.length (acc ++ [j])%list = Z.to_nat (Z.max 1 limit))
             by lia.
           rewrite L, Nat.sub_diag, firstn_O, app_nil_r.
           rewrite <- L. now rewrite firstn_all.
        -- apply Z.leb_gt in E. apply IH. lia.
      * destruct j; now apply IH.
Qed.

(** X1. get_articles lists the parseable documents that pass the status
    filter, taken in descending order of file name, up to the limit, and
    up to one when the limit is below one. *)
Theorem listed_is_a_sorted_filtered_prefix (status : string) (limit : Z)
    (d : directory) :
  listed status limit d =
    firstn (Z.to_nat (Z.max 1 limit))
      (filter (passes status) (documents (sorted_reverse (glob_json d)))) /\
  descending (sorted_reverse (glob_json d)) /\
  Permutation (sorted_reverse (glob_json d)) (glob_json d).
Proof.
  split; [|split].
  - unfold listed. rewrite get_articles_loop_prefix; [reflexivity | simpl; lia].
  - apply sorted_reverse_descending.
  - apply sorted_reverse_perm.
Qed.

(** ** When a listing raises *)

Lemma summary_summarisable (j : json) :
  match summary j with
  | Return _ => summarisable j = true
  | Raise _ => summarisable j = false
  end.
Proof.
  destruct j; try reflexivity.
  unfold summary, get_or. simpl.
  destruct (dict_get kvs "createdAt") as [[]|]; reflexivity.
Qed.

Lemma for_each_summary (l : list json) :
  match for_each summary l with
  | Return lines => forallb summarisable l = true /\ List.length lines = List.length l
  | Raise _ => forallb summarisable l = false
  end.
Proof.
  induction l as [|j l IH]; simpl; [auto|].
  pose proof (summary_summarisable j) as S.
  destruct (summary j); rewrite S; simpl; [|reflexivity].
  destruct (for_each summary l); simpl; [|exact IH].
  destruct IH. auto.
Qed.

(** X2. get_articles raises exactly when one of the articles it has
    collected cannot be summarised: a document that is not a JSON object
    (collected only under the filter "all"), or an object whose createdAt
    is neither text nor a list.  The files are read inside the try of
    the loop, the summaries are made outside of it. *)
Theorem get_articles_raises_iff (status : string) (limit : Z) (d : directory) :
  match get_articles status limit d with
  | Return _ => forallb summarisable (listed status limit d) = true
  | Raise _ => forallb summarisable (listed status limit d) = false
  end.
Proof.
  unfold get_articles.
  destruct (listed status limit d) as [|j l] eqn:E; [reflexivity|].
  pose proof (for_each_summary (j :: l)) as F.
  destruct (for_each summary (j :: l)); simpl; [apply F | exact F].
Qed.

(** ** Fetching by slug *)

Lemma json_dumps_object_head (w : nat) (a : dict) :
  exists rest, json_dumps w (JObj a) = String "{" rest.
Proof.
  unfold json_dumps. destruct a as [|kv a]; simpl; eauto.
Qed.

(** X3. get_article returns the not-found message exactly when no
    enumerated file holds a record with the slug; otherwise it returns the
    JSON text (an object, starting with a brace) of the first such record
    in enumeration order. *)
Theorem get_article_finds_the_first_match (slug : string) (d : directory) :
  (get_article slug d = not_found slug <->
   existsb (carries slug) (glob_json d) = false) /\
  (forall name a,
     first_match slug (glob_json d) = Some (name, a) ->
     get_article slug d = json_dumps 2 (JObj a) /\
     In (name, Document (JObj a)) (glob_json d) /\
     dict_get a "slug" = Some (JStr slug)).
Proof.
  unfold get_article. rewrite get_article_loop_first_match. split.
  - rewrite existsb_carries_false.
    destruct (first_match slug (glob_json d)) as [[n a]|]; [|tauto].
    split; [|discriminate].
    destruct (json_dumps_object_head 2 a) as [rest ->]. discriminate.
  - intros name a F. rewrite F. split; [reflexivity|].
    apply first_match_in in F as [I S]. split; [exact I|].
    destruct (dict_get a "slug") as [[]|]; simpl in S; try discriminate.
    apply String.eqb_eq in S. now subst.
Qed.

(** ** More on directories *)

Lemma names_insert_at (k : nat) (e : string * file) (d : directory) :
  Permutation (names (insert_at k e d)) (fst e :: names d).
Proof.
  unfold insert_at, names. rewrite map_app. simpl.
  rewrite <- Permutation_middle. constructor.
  rewrite <- map_app, firstn_skipn. reflexivity.
Qed.

Lemma length_overwrite (n : string) (f : file) (d : directory) :
  List.length (overwrite n f d) = List.length d.
Proof.
  induction d as [|[n0 f0] d IH]; simpl; [reflexivity|].
  destruct (n0 =? n)%string; simpl; [reflexivity | now rewrite IH].
Qed.

Lemma length_insert_at (k : nat) (e : string * file) (d : directory) :
  List.length (insert_at k e d) = S (List.length d).
Proof.
  unfold insert_at. rewrite length_app. simpl.
  rewrite <- (firstn_skipn k d) at 3. rewrite length_app. lia.
Qed.

Lemma names_unlink_nodup (d : directory) (n : string) :
  NoDup (names d) -> NoDup (names (unlink n d)).
Proof.
  induction d as [|[n0 f0] d IH]; simpl; [auto|].
  intros ND. inversion ND as [|? ? Hn ND']; subst.
  destruct (n0 =? n)%string; [exact ND'|].
  simpl. constructor; [|now apply IH].
  intros H. apply Hn. clear - H.
  induction d as [|[n1 f1] d IH]; simpl in *; [contradiction|].
  destruct (n1 =? n)%string; simpl in *; tauto.
Qed.

Lemma unlink_insert_at (k : nat) (n : string) (f : file) (d : directory) :
  read_file d n = None -> unlink n (insert_at k (n, f) d) = d.
Proof.
  intros R. unfold insert_at.
  rewrite <- (firstn_skipn k d) at 3.
  assert (N : ~ In n (names (firstn k d))).
  { apply read_none_not_name in R. intros H. apply R.
    unfold names in *. rewrite <- (firstn_skipn k d), map_app.
    apply in_or_app. now left. }
  induction (firstn k d) as [|[n0 f0] l IH]; simpl.
  - now rewrite String.eqb_refl.
  - simpl in N. destruct (n0 =? n)%string eqn:E.
    + apply String.eqb_eq in E. tauto.
    + rewrite IH; tauto.
Qed.

Section Frames.

Variable new_slot : directory -> string -> nat.

Lemma names_write_file (n : string) (f : file) (d : directory) :
  Permutation (names (write_file new_slot n f d))
    (match read_file d n with Some _ => names d | None => n :: names d end).
Proof.
  unfold write_file. destruct (read_file d n).
  - now rewrite names_overwrite.
  - apply (names_insert_at _ (n, f)).
Qed.

Lemma write_file_nodup (n : string) (f : file) (d : directory) :
  NoDup (names d) -> NoDup (names (write_file new_slot n f d)).
Proof.
  intros ND. eapply Permutation_NoDup.
  - symmetry. apply names_write_file.
  - destruct (read_file d n) eqn:R; [exact ND|].
    constructor; [now apply read_none_not_name | exact ND].
Qed.

End Frames.

(** ** What a save leaves alone *)

(** X4. save_article writes at most one file, named after the id.  When
    the name and the path of that file fit the limits of the file system,
    the call returns and the directory has one more entry when no file had
    that name and the same entries when one had; otherwise the call raises
    OSError and the directory is as before.  In both cases every other
    file is as before and the names stay distinct. *)
Theorem save_article_writes_one_file (ARTICLES_DIR : string)
    (new_slot : directory -> string -> nat)
    (title content meta_description primary_keyword : string)
    (secondary_keywords : list string) (image_url : string)
    (schema_markup : option dict) (clock1 clock2 : datetime) (d : directory) :
  let file_name := (slugify title ++ "-" ++ strftime_YmdHMS clock1) ++ ".json" in
  let saved :=
    save_article ARTICLES_DIR new_slot title content meta_description
      primary_keyword secondary_keywords image_url schema_markup
      clock1 clock2 d in
  let d' := snd saved in
  (forall name, name <> file_name -> read_file d' name = read_file d name) /\
  (if can_open (path_join ARTICLES_DIR file_name) file_name
   then (exists message, fst saved = Return message) /\
        Permutation (names d')
          (match read_file d file_name with
           | Some _ => names d
           | None => file_name :: names d
           end)
   else fst saved = Raise OSError /\ d' = d) /\
  (NoDup (names d) -> NoDup (names d')).
Proof.
  intros file_name saved d'. unfold d', saved.
  rewrite save_article_outcome. fold file_name.
  destruct (can_open (path_join ARTICLES_DIR file_name) file_name); simpl.
  - split; [|split].
    + intros name N. apply read_write_other.
      intros E. apply N. symmetry. exact E.
    + split; [eauto|]. apply (names_write_file new_slot).
    + apply write_file_nodup.
  - auto.
Qed.

(** X5. Two saves whose titles have the same slug, made in the same
    second, go to the same file: when the second save returns, the file
    holds the second article, and the directory has the names it had
    after the first. *)
Theorem save_article_overwrites_within_a_second (ARTICLES_DIR : string)
    (new_slot : directory -> string -> nat)
    (title1 content1 meta1 keyword1 : string) (secondary1 : list string)
    (image1 : string) (schema1 : option dict) (clock1 clock1' : datetime)
    (title2 content2 meta2 keyword2 : string) (secondary2 : list string)
    (image2 : string) (schema2 : option dict) (clock2 clock2' : datetime)
    (d : directory) (message : string) :
  slugify title1 = slugify title2 ->
  strftime_YmdHMS clock1 = strftime_YmdHMS clock2 ->
  let article_id := slugify title2 ++ "-" ++ strftime_YmdHMS clock2 in
  let d1 :=
    snd (save_article ARTICLES_DIR new_slot title1 content1 meta1 keyword1
           secondary1 image1 schema1 clock1 clock1' d) in
  let d2 :=
    snd (save_article ARTICLES_DIR new_slot title2 content2 meta2 keyword2
           secondary2 image2 schema2 clock2 clock2' d1) in
  fst (save_article ARTICLES_DIR new_slot title2 content2 meta2 keyword2
         secondary2 image2 schema2 clock2 clock2' d1) = Return message ->
  names d2 = names d1 /\
  read_file d2 (article_id ++ ".json") =
    Some (Document (JObj (new_article article_id (slugify title2) title2
                            content2 meta2 keyword2 secondary2 image2 schema2
                            (isoformat clock2')))).
Proof.
  intros S T article_id d1 d2 R.
  pose proof (save_article_returned _ _ _ _ _ _ _ _ _ _ _ _ _ R) as (O & _ & W).
  fold article_id in O, W. fold d2 in W.
  assert (R1 : exists text,
             fst (save_article ARTICLES_DIR new_slot title1 content1 meta1
                    keyword1 secondary1 image1 schema1 clock1 clock1' d)
             = Return text).
  { rewrite save_article_outcome, S, T. fold article_id. rewrite O.
    simpl. eauto. }
  destruct R1 as [text R1].
  split.
  - rewrite W. unfold write_file.
    replace (read_file d1 _) with
      (Some (Document (JObj (new_article article_id (slugify title2) title1
                               content1 meta1 keyword1 secondary1 image1 schema1
                               (isoformat clock1'))))).
    + apply names_overwrite.
    + symmetry. unfold d1, article_id. rewrite <- S, <- T.
      apply (save_article_stored _ _ _ _ _ _ _ _ _ _ _ _ _ R1).
  - apply (save_article_stored _ _ _ _ _ _ _ _ _ _ _ _ _ R).
Qed.

Lemma save_article_overwrites_within_a_second_witness :
  slugify "Best Gin" = slugify "BEST  gin!" /\
  names (snd (save_article "articles_data" slot_last "BEST  gin!" "new body"
                "about gin" "gin" [] "gin.png" None noon later gin_dir))
    = names gin_dir.
Proof.
  split; [reflexivity|].
  refine (proj1 (save_article_overwrites_within_a_second "articles_data"
                   slot_last "Best Gin" "old body" "about gin" "gin"
                   ["tonic"] "gin.png" None noon noon
                   "BEST  gin!" "new body" "about gin" "gin" [] "gin.png"
                   None noon later [] _ eq_refl eq_refl eq_refl)).
Defined.

(** ** What a status update leaves alone *)

Lemma dict_set_same (d : dict) (k : string) (v : json) :
  dict_get d k = Some v -> dict_set d k v = d.
Proof.
  induction d as [|[k' v'] d IH]; simpl; [discriminate|].
  destruct (k' =? k)%string eqn:E.
  - intros [= ->]. reflexivity.
  - intros H. now rewrite IH.
Qed.

Lemma dict_set_keys (d : dict) (k : string) (v : json) :
  map fst (dict_set d k v) =
  match dict_get d k with
  | Some _ => map fst d
  | None => (map fst d ++ [k])%list
  end.
Proof.
  induction d as [|[k' v'] d IH]; simpl; [reflexivity|].
  destruct (k' =? k)%string eqn:E; simpl; [reflexivity|].
  rewrite IH. destruct (dict_get d k); reflexivity.
Qed.

Lemma updated_other_keys (status : string) (clock : datetime) (a : dict)
    (k : string) :
  k <> "status" -> k <> "publishedAt" ->
  dict_get (updated status clock a) k = dict_get a k.
Proof.
  intros N1 N2. unfold updated.
  destruct (_ && _); rewrite !dict_get_set_other; congruence.
Qed.

Lemma isoformat_not_empty (t : datetime) : (isoformat t =? "")%string = false.
Proof.
  unfold isoformat.
  destruct (zero_padded 4 (year t)); reflexivity.
Qed.

Lemma updated_twice (status : string) (clock clock' : datetime) (a : dict) :
  updated status clock' (updated status clock a) = updated status clock a.
Proof.
  unfold updated at 1.
  rewrite (dict_set_same _ _ _ (updated_status status clock a)).
  rewrite updated_published_at.
  destruct ((status =? "published")%string) eqn:E; simpl; [|reflexivity].
  destruct (truthy_opt (dict_get a "publishedAt")) eqn:T; simpl.
  - now rewrite T.
  - now rewrite isoformat_not_empty.
Qed.

Lemma overwrite_absent (n : string) (f : file) (l : list (string * file)) :
  ~ In n (names l) -> overwrite n f l = l.
Proof.
  induction l as [|[n0 f0] l IH]; simpl; [reflexivity|].
  intros H. destruct (n0 =? n)%string eqn:E.
  - apply String.eqb_eq in E. tauto.
  - rewrite IH; tauto.
Qed.

Lemma glob_json_names (d : directory) (n : string) :
  In n (names (glob_json d)) -> endswith n ".json" = true.
Proof.
  unfold names, glob_json. intros H.
  apply in_map_iff in H as (e & <- & H). now apply filter_In in H.
Qed.

Lemma glob_json_overwrite (n : string) (f : file) (d : directory) :
  glob_json (overwrite n f d) = overwrite n f (glob_json d).
Proof.
  induction d as [|[n0 f0] d IH]; [reflexivity|].
  cbn [overwrite]. destruct (n0 =? n)%string eqn:E.
  - apply String.eqb_eq in E. subst n0. unfold glob_json. cbn [filter fst].
    destruct (endswith n ".json") eqn:J.
    + cbn [overwrite]. now rewrite String.eqb_refl.
    + symmetry. apply overwrite_absent. intros H.
      apply glob_json_names in H. congruence.
  - unfold glob_json in *. cbn [filter fst].
    destruct (endswith n0 ".json"); [|exact IH].
    cbn [overwrite]. now rewrite E, IH.
Qed.

Lemma names_glob_json_nodup (d : directory) :
  NoDup (names d) -> NoDup (names (glob_json d)).
Proof.
  unfold names, glob_json.
  induction d as [|[n0 f0] d IH]; simpl; [auto|].
  intros ND. inversion ND as [|? ? Hn ND']; subst.
  destruct (endswith n0 ".json"); [|now apply IH].
  simpl. constructor; [|now apply IH].
  intros H. apply Hn. apply in_map_iff in H as (e & <- & H).
  apply filter_In in H as [H _]. now apply in_map.
Qed.

Lemma first_match_overwrite (slug : string) (l : list (string * file))
    (n : string) (a r : dict) :
  NoDup (names l) ->
  first_match slug l = Some (n, a) ->
  eq_str (dict_get r "slug") slug = true ->
  first_match slug (overwrite n (Document (JObj r)) l) = Some (n, r).
Proof.
  intros ND F S. induction l as [|[n0 f0] l IH]; [discriminate|].
  inversion ND as [|? ? Hn ND']; subst.
  assert (K : first_match slug l = Some (n, a) ->
              carries slug (n0, f0) = false ->
              first_match slug (overwrite n (Document (JObj r)) ((n0, f0) :: l))
              = Some (n, r)).
  { intros F' C. cbn [overwrite].
    destruct (n0 =? n)%string eqn:E.
    - apply String.eqb_eq in E. subst n0. exfalso. apply Hn.
      apply first_match_in in F' as [I _].
      change n with (fst (n, Document (JObj a))). now apply in_map.
    - unfold carries in C. simpl in C.
      destruct f0 as [|[]]; simpl; try now apply IH.
      rewrite C. now apply IH. }
  simpl in F. destruct f0 as [|j]; [now apply K|].
  destruct j; try now apply K.
  destruct (eq_str (dict_get kvs "slug") slug) eqn:C; [|now apply K].
  injection F as -> ->. cbn [overwrite]. rewrite String.eqb_refl.
  simpl. now rewrite S.
Qed.

Lemma updated_slug (status : string) (clock : datetime) (a : dict) :
  dict_get (updated status clock a) "slug" = dict_get a "slug".
Proof. apply updated_other_keys; discriminate. Qed.

(** X6. A status update that reaches the record [a] of the file [name]
    rewrites that file and nothing else: the names of the directory and
    every other file are as before, and in the record every key other
    than status and publishedAt keeps its value. *)
Theorem update_article_status_frame
    (new_slot : directory -> string -> nat) (slug status : string)
    (clock : datetime) (d : directory) (name : string) (a : dict) :
  first_match slug (glob_json d) = Some (name, a) ->
  let d' := snd (update_article_status new_slot slug status clock d) in
  names d' = names d /\
  (forall other, other <> name -> read_file d' other = read_file d other) /\
  exists a',
    read_file d' name = Some (Document (JObj a')) /\
    forall k, k <> "status" -> k <> "publishedAt" ->
              dict_get a' k = dict_get a k.
Proof.
  intros F d'. unfold d', update_article_status.
  rewrite update_loop_first_match, F. simpl.
  pose proof (first_match_in _ _ _ _ F) as [I _]. apply glob_json_in in I.
  split; [|split].
  - rewrite (write_existing _ _ _ _ _ I). apply names_overwrite.
  - intros other N. apply read_write_other. congruence.
  - exists (updated status clock a). split; [apply read_write_same|].
    intros k. apply updated_other_keys.
Qed.

Lemma update_article_status_frame_witness :
  names (snd (update_article_status slot_last "best-gin" "draft" later twins))
    = names twins.
Proof.
  refine (proj1 (update_article_status_frame slot_last "best-gin" "draft"
                   later twins gin_name gin_article _)).
  reflexivity.
Defined.

(** X7. Repeating a status update changes nothing more: in a directory of
    distinctly named files, the same update made a second time, at any
    later reading of the clock, returns the same message and leaves the
    directory as the first left it. *)
Theorem update_article_status_twice
    (new_slot : directory -> string -> nat) (slug status : string)
    (clock clock' : datetime) (d : directory) :
  NoDup (names d) ->
  update_article_status new_slot slug status clock'
    (snd (update_article_status new_slot slug status clock d))
  = update_article_status new_slot slug status clock d.
Proof.
  intros ND. unfold update_article_status at 2 3.
  rewrite update_loop_first_match.
  destruct (first_match slug (glob_json d)) as [[n a]|] eqn:F; simpl.
  - pose proof (first_match_in _ _ _ _ F) as [I S].
    pose proof (glob_json_in _ _ I) as I'.
    rewrite (write_existing _ _ _ _ _ I').
    unfold update_article_status. rewrite update_loop_first_match.
    rewrite glob_json_overwrite.
    rewrite (first_match_overwrite slug (glob_json d) n a
               (updated status clock a)).
    + f_equal. rewrite updated_twice.
      assert (R : read_file (overwrite n (Document (JObj (updated status clock a))) d) n
                  <> None).
      { rewrite read_overwrite_same; [discriminate|].
        now apply in_read_file_some in I'. }
      unfold write_file.
      destruct (read_file (overwrite n _ d) n) eqn:E; [|congruence].
      clear. induction d as [|[n0 f0] d IH]; simpl; [reflexivity|].
      destruct (n0 =? n)%string eqn:E; simpl; rewrite E; [reflexivity|].
      now rewrite IH.
    + now apply names_glob_json_nodup.
    + exact F.
    + now rewrite updated_slug.
  - unfold update_article_status. now rewrite update_loop_first_match, F.
Qed.

Lemma update_article_status_twice_witness :
  update_article_status slot_last "best-gin" "draft" later
    (snd (update_article_status slot_last "best-gin" "draft" noon twins))
  = update_article_status slot_last "best-gin" "draft" noon twins.
Proof.
  apply (update_article_status_twice slot_last "best-gin" "draft" noon later twins).
  vm_compute. repeat constructor; simpl; intuition discriminate.
Defined.

(** ** What a delete removes *)

(** X8. A delete that reaches the record of the file [name] removes that
    file and nothing else: in a directory of distinctly named files the
    file is gone, every other file is as before, and the directory has
    one entry less. *)
Theorem delete_article_removes_one_file (slug : string) (d : directory)
    (name : string) (a : dict) :
  NoDup (names d) ->
  first_match slug (glob_json d) = Some (name, a) ->
  let d' := snd (delete_article slug d) in
  fst (delete_article slug d) = "Article deleted: " ++ slug /\
  read_file d' name = None /\
  (forall other, other <> name -> read_file d' other = read_file d other) /\
  S (List.length d') = List.length d /\
  NoDup (names d').
Proof.
  intros ND F d'. unfold d', delete_article.
  rewrite delete_loop_first_match, F. simpl.
  pose proof (first_match_in _ _ _ _ F) as [I _]. apply glob_json_in in I.
  repeat split.
  - now apply read_unlink_same.
  - intros other N. apply read_unlink_other. congruence.
  - now apply (length_unlink _ _ _ I).
  - now apply names_unlink_nodup.
Qed.

Lemma delete_article_removes_one_file_witness :
  read_file (snd (delete_article "best-gin" twins)) gin_name = None /\
  S (List.length (snd (delete_article "best-gin" twins))) = List.length twins.
Proof.
  assert (ND : NoDup (names twins)).
  { vm_compute. repeat constructor; simpl; intuition discriminate. }
  pose proof (delete_article_removes_one_file "best-gin" twins gin_name
                gin_article ND eq_refl) as (_ & R & _ & L & _).
  exact (conj R L).
Defined.

(** ** Saving and deleting *)

(** X9. Deleting what was just saved gives the directory back: when the
    save returns, no file had the name of the new article and no stored
    record carries its slug, save_article followed by delete_article of
    the slug reports the deletion and leaves the directory exactly as it
    was before the save. *)
Theorem delete_undoes_save (ARTICLES_DIR : string)
    (new_slot : directory -> string -> nat)
    (title content meta_description primary_keyword : string)
    (secondary_keywords : list string) (image_url : string)
    (schema_markup : option dict) (clock1 clock2 : datetime) (d : directory)
    (message : string) :
  fst (save_article ARTICLES_DIR new_slot title content meta_description
         primary_keyword secondary_keywords image_url schema_markup
         clock1 clock2 d) = Return message ->
  NoDup (names d) ->
  read_file d ((slugify title ++ "-" ++ strftime_YmdHMS clock1) ++ ".json") = None ->
  existsb (carries (slugify title)) (glob_json d) = false ->
  delete_article (slugify title)
    (snd (save_article ARTICLES_DIR new_slot title content meta_description
            primary_keyword secondary_keywords image_url schema_markup
            clock1 clock2 d))
  = ("Article deleted: " ++ slugify title, d).
Proof.
  intros S ND R C.
  assert (U : forallb
                (fun e => negb (carries (slugify title) e)
                          || (fst e =? (slugify title ++ "-" ++ strftime_YmdHMS clock1)
                                       ++ ".json")%string)
                (glob_json d) = true).
  { apply forallb_forall. intros e He.
    apply existsb_carries_false in C. rewrite first_match_none in C.
    now rewrite (C _ He). }
  pose proof (save_article_first_match ARTICLES_DIR new_slot title content
                meta_description primary_keyword secondary_keywords image_url
                schema_markup clock1 clock2 d message S ND U) as F.
  cbv zeta in F.
  unfold delete_article. rewrite delete_loop_first_match, F.
  f_equal. rewrite (save_article_writes _ _ _ _ _ _ _ _ _ _ _ _ _ S). cbv zeta.
  unfold write_file. rewrite R. now apply unlink_insert_at.
Qed.

Lemma delete_undoes_save_witness :
  delete_article "tonic-water"
    (snd (save_article "articles_data" slot_last "Tonic Water" "tonic body"
            "about tonic" "tonic" ["quinine"] "tonic.png" None later later
            gin_dir))
  = ("Article deleted: tonic-water", gin_dir).
Proof.
  refine (delete_undoes_save "articles_data" slot_last "Tonic Water"
            "tonic body" "about tonic" "tonic" ["quinine"] "tonic.png" None
            later later gin_dir _ eq_refl _ eq_refl eq_refl).
  vm_compute. repeat constructor. intros [].
Defined.

(** ** Stores that the operations build *)

Lemma written_record_new_article (article_id slug title content
    meta_description primary_keyword : string) (secondary_keywords : list string)
    (image_url : string) (schema_markup : option dict) (clock : datetime) :
  written_record
    (new_article article_id slug title content meta_description primary_keyword
       secondary_keywords image_url schema_markup (isoformat clock)) = true.
Proof.
  unfold written_record. simpl. now rewrite isoformat_not_empty.
Qed.

Lemma written_record_truthy (a : dict) :
  written_record a = true -> truthy_opt (dict_get a "publishedAt") = true.
Proof. unfold written_record. rewrite !andb_true_iff. tauto. Qed.

Lemma updated_written (status : string) (clock : datetime) (a : dict) :
  written_record a = true ->
  updated status clock a = dict_set a "status" (JStr status).
Proof.
  intros W. unfold updated.
  rewrite dict_get_set_other by discriminate.
  rewrite (written_record_truthy _ W), andb_false_r. reflexivity.
Qed.

Lemma written_record_updated (status : string) (clock : datetime) (a : dict) :
  written_record a = true -> written_record (updated status clock a) = true.
Proof.
  intros W. rewrite (updated_written _ _ _ W).
  unfold written_record in *.
  rewrite dict_get_set_same.
  rewrite !(dict_get_set_other a "status") by discriminate.
  rewrite !andb_true_iff in *. simpl. tauto.
Qed.

Lemma forallb_overwrite (p : string * file -> bool) (n : string) (f : file)
    (d : directory) :
  forallb p d = true -> p (n, f) = true -> forallb p (overwrite n f d) = true.
Proof.
  intros H P. induction d as [|[n0 f0] d IH]; simpl in *; [reflexivity|].
  apply andb_true_iff in H as [H1 H2].
  destruct (n0 =? n)%string eqn:E; simpl.
  - apply String.eqb_eq in E. subst. now rewrite P, H2.
  - now rewrite H1, IH.
Qed.

Lemma forallb_insert_at (p : string * file -> bool) (k : nat)
    (e : string * file) (d : directory) :
  forallb p d = true -> p e = true -> forallb p (insert_at k e d) = true.
Proof.
  intros H P. unfold insert_at.
  rewrite <- (firstn_skipn k d), forallb_app in H.
  apply andb_true_iff in H as [H1 H2].
  rewrite forallb_app. simpl. now rewrite H1, P, H2.
Qed.

Lemma forallb_unlink (p : string * file -> bool) (n : string) (d : directory) :
  forallb p d = true -> forallb p (unlink n d) = true.
Proof.
  intros H. induction d as [|[n0 f0] d IH]; simpl in *; [reflexivity|].
  apply andb_true_iff in H as [H1 H2].
  destruct (n0 =? n)%string; simpl; [exact H2 | now rewrite H1, IH].
Qed.

Lemma forallb_write_file (new_slot : directory -> string -> nat)
    (p : string * file -> bool) (n : string) (f : file) (d : directory) :
  forallb p d = true -> p (n, f) = true ->
  forallb p (write_file new_slot n f d) = true.
Proof.
  intros H P. unfold write_file. destruct (read_file d n).
  - now apply forallb_overwrite.
  - now apply forallb_insert_at.
Qed.

Lemma written_store_step (ARTICLES_DIR : string)
    (new_slot : directory -> string -> nat) (o : operation) (d : directory) :
  written_store d -> written_store (apply_operation ARTICLES_DIR new_slot d o).
Proof.
  intros [ND W]. destruct o as [title content md pk sk img sm c1 c2|slug status clock|slug];
    cbn [apply_operation].
  - rewrite save_article_outcome.
    destruct (can_open _ _); cbn [snd]; [|now split]. split.
    + now apply write_file_nodup.
    + apply forallb_write_file; [exact W|].
      unfold written_file. cbn [snd fst].
      rewrite written_record_new_article. simpl. apply String.eqb_refl.
  - unfold update_article_status. rewrite update_loop_first_match.
    destruct (first_match slug (glob_json d)) as [[n a]|] eqn:F; [|now split].
    cbn [snd]. split; [now apply write_file_nodup|].
    apply forallb_write_file; [exact W|].
    apply first_match_in in F as [I _]. apply glob_json_in in I.
    rewrite forallb_forall in W. specialize (W _ I).
    unfold written_file in *. cbn [snd fst] in *.
    apply andb_true_iff in W as [W1 W2].
    rewrite (written_record_updated _ _ _ W1).
    rewrite updated_other_keys by discriminate. exact W2.
  - unfold delete_article. rewrite delete_loop_first_match.
    destruct (first_match slug (glob_json d)) as [[n a]|]; [|now split].
    cbn [snd]. split; [now apply names_unlink_nodup | now apply forallb_unlink].
Qed.

Lemma written_store_run (ARTICLES_DIR : string)
    (new_slot : directory -> string -> nat) (os : list operation) (d : directory) :
  written_store d -> written_store (run ARTICLES_DIR new_slot os d).
Proof.
  revert d. induction os as [|o os IH]; intros d W; [exact W|].
  apply IH. now apply written_store_step.
Qed.

Lemma written_file_summarisable (n : string) (j : json) :
  written_file (n, Document j) = true -> summarisable j = true.
Proof.
  unfold written_file. cbn [snd]. destruct j; try discriminate.
  unfold written_record, summarisable. rewrite !andb_true_iff.
  intros H. assert (C : is_text (dict_get kvs "createdAt") = true) by tauto.
  destruct (dict_get kvs "createdAt") as [[]|]; try discriminate; reflexivity.
Qed.

(** X10. Whatever calls of save_article, update_article_status and
    delete_article were made on an empty directory, in any order and with
    any arguments: the files have distinct names, each file is named after
    the id of the record it holds, and each record has text in id, slug,
    title, status and createdAt and a publishedAt that is text and not
    empty. *)
Theorem operations_keep_the_store_written (ARTICLES_DIR : string)
    (new_slot : directory -> string -> nat) (os : list operation) :
  NoDup (names (run ARTICLES_DIR new_slot os [])) /\
  forallb written_file (run ARTICLES_DIR new_slot os []) = true.
Proof. apply written_store_run. split; [constructor | reflexivity]. Qed.

(** X11. On a store built by the operations from an empty directory,
    get_articles does not raise, whatever the filter and the limit. *)
Theorem get_articles_returns_on_built_stores (ARTICLES_DIR : string)
    (new_slot : directory -> string -> nat) (os : list operation)
    (status : string) (limit : Z) :
  exists text,
    get_articles status limit (run ARTICLES_DIR new_slot os []) = Return text.
Proof.
  pose proof (get_articles_raises_iff status limit
                (run ARTICLES_DIR new_slot os [])) as G.
  destruct (get_articles status limit _) as [text|e]; [eauto|].
  exfalso.
  destruct (operations_keep_the_store_written ARTICLES_DIR new_slot os) as [_ W].
  assert (T : forallb summarisable
                (listed status limit (run ARTICLES_DIR new_slot os [])) = true).
  { apply forallb_forall. intros j Hj.
    apply listed_in in Hj as (n & Hn & _). apply glob_json_in in Hn.
    rewrite forallb_forall in W.
    now apply (written_file_summarisable n), W. }
  congruence.
Qed.

(** X12. On a store built by the operations from an empty directory, a
    status update changes the status and nothing else: every record has a
    publishedAt since its creation, so the update that reaches the record
    [a] writes back [a] with the new status, publishedAt included as it
    was, also when the new status is "published". *)
Theorem update_only_sets_status_on_built_stores (ARTICLES_DIR : string)
    (new_slot : directory -> string -> nat) (os : list operation)
    (slug status : string) (clock : datetime) (name : string) (a : dict) :
  let d := run ARTICLES_DIR new_slot os [] in
  first_match slug (glob_json d) = Some (name, a) ->
  read_file (snd (update_article_status new_slot slug status clock d)) name
    = Some (Document (JObj (dict_set a "status" (JStr status)))) /\
  dict_get (dict_set a "status" (JStr status)) "publishedAt"
    = dict_get a "publishedAt".
Proof.
  intros d F.
  destruct (operations_keep_the_store_written ARTICLES_DIR new_slot os) as [_ W].
  fold d in W.
  pose proof (first_match_in _ _ _ _ F) as [I _]. apply glob_json_in in I.
  rewrite forallb_forall in W. specialize (W _ I).
  unfold written_file in W. cbn [snd] in W. apply andb_true_iff in W as [W _].
  split.
  - unfold update_article_status. rewrite update_loop_first_match, F.
    cbn [snd]. rewrite read_write_same. now rewrite (updated_written _ _ _ W).
  - apply dict_get_set_other. discriminate.
Qed.

Lemma update_only_sets_status_on_built_stores_witness :
  read_file
    (snd (update_article_status slot_last "best-gin" "published" later
            (run "articles_data" slot_last
               [SaveArticle "Best Gin" "old body" "about gin" "gin" ["tonic"]
                  "gin.png" None noon noon;
                UpdateArticleStatus "best-gin" "draft" later] [])))
    gin_name
  = Some (Document (JObj (dict_set (dict_set gin_article "status" (JStr "draft"))
                            "status" (JStr "published")))).
Proof.
  refine (proj1 (update_only_sets_status_on_built_stores "articles_data"
                   slot_last
                   [SaveArticle "Best Gin" "old body" "about gin" "gin" ["tonic"]
                      "gin.png" None noon noon;
                    UpdateArticleStatus "best-gin" "draft" later]
                   "best-gin" "published" later gin_name
                   (dict_set gin_article "status" (JStr "draft")) _)).
  reflexivity.
Defined.

(** ** The shape of a slug *)

Lemma last_ok_trim_trailing (s : string) : last_ok (trim_trailing s) = true.
Proof.
  induction s as [|c s IH]; simpl; [reflexivity|].
  destruct (trim_trailing s) as [|y t].
  - destruct (is_hyphen c) eqn:E; simpl; [reflexivity | now rewrite E].
  - exact IH.
Qed.

Lemma trim_trailing_fixed (s : string) : last_ok s = true -> trim_trailing s = s.
Proof.
  induction s as [|c s IH]; [reflexivity|]. intros H.
  change (trim_trailing (String c s))
    with (match trim_trailing s with
          | EmptyString => if is_hyphen c then EmptyString else String c EmptyString
          | t => String c t
          end).
  destruct s as [|y r].
  - simpl in *. apply negb_true_iff in H. now rewrite H.
  - rewrite IH; [reflexivity | exact H].
Qed.

Lemma slugify_policy_chars (text : string) :
  all_chars (fun c => (is_word c || is_hyphen c) && (lower_char c =? c)%char)
    (slugify_policy text) = true.
Proof.
  apply all_chars_impl
    with (p := fun c => (retainable c && negb (is_space c))
                        && (lower_char c =? c)%char).
  - intros c. unfold retainable.
    destruct (is_word c), (is_space c), (is_hyphen c); simpl;
      intros H; solve [discriminate H | exact H].
  - unfold slugify_policy. repeat apply all_chars_and.
    + apply all_chars_trim_trailing, all_chars_trim_leading.
      do 2 (apply all_chars_collapse; [reflexivity|]).
      apply all_chars_keep_self.
    + apply all_chars_trim_trailing, all_chars_trim_leading.
      apply all_chars_collapse; [reflexivity|].
      apply all_chars_collapse_out. reflexivity.
    + apply all_chars_trim_trailing, all_chars_trim_leading.
      do 2 (apply all_chars_collapse; [reflexivity|]).
      apply all_chars_keep, all_chars_lower.
Qed.

(** X13. What slugify returns is a slug (lowercase word characters and
    hyphens, no hyphen at either end, no two hyphens in a row), so it has
    no slash, dot or whitespace; and every slug is what slugify returns
    for it. *)
Theorem slugify_makes_slugs :
  (forall text, is_slug (slugify text) = true) /\
  (forall s, is_slug s = true -> slugify s = s) /\
  (forall text,
     all_chars (fun c => negb (is_space c) && negb (c =? "/")%char
                         && negb (c =? ".")%char) (slugify text) = true).
Proof.
  assert (A : forall text, is_slug (slugify text) = true).
  { intros text. rewrite slugify_eq_policy. unfold is_slug.
    rewrite slugify_policy_chars. unfold slugify_policy.
    rewrite head_ok_trim_trailing by apply head_ok_trim_leading.
    rewrite last_ok_trim_trailing.
    rewrite single_trim_trailing; [reflexivity|].
    apply (single_trim_leading false), single_collapse. reflexivity. }
  split; [exact A|]. split.
  - intros s H. unfold is_slug in H. rewrite !andb_true_iff in H.
    destruct H as [[[C H1] H2] H3].
    rewrite slugify_eq_policy. unfold slugify_policy.
    rewrite lower_fixed.
    2:{ apply all_chars_impl with (2 := C). intros c Hc.
        now apply andb_true_iff in Hc as [_ Hc]. }
    rewrite keep_fixed.
    2:{ apply all_chars_impl with (2 := C). intros c Hc.
        apply andb_true_iff in Hc as [Hc _]. unfold retainable.
        destruct (is_word c), (is_hyphen c); try discriminate;
          now rewrite ?orb_true_r. }
    rewrite (collapse_fixed_out is_space).
    2:{ apply all_chars_impl with (2 := C). intros c Hc.
        apply andb_true_iff in Hc as [Hc _].
        apply orb_true_iff in Hc as [Hc|Hc].
        - now rewrite (word_not_space _ Hc).
        - apply is_hyphen_eq in Hc. now subst. }
    rewrite (collapse_fixed_single _ _ _ _ is_hyphen_eq H3).
    rewrite (trim_leading_fixed _ H1). now apply trim_trailing_fixed.
  - intros text. specialize (A text). unfold is_slug in A.
    rewrite !andb_true_iff in A. destruct A as [[[C _] _] _].
    apply all_chars_impl with (2 := C). intros c Hc.
    apply andb_true_iff in Hc as [Hc _].
    apply orb_true_iff in Hc as [Hc|Hc].
    + rewrite (word_not_space _ Hc). simpl.
      destruct (c =? "/")%char eqn:E1;
        [apply Ascii.eqb_eq in E1; subst; discriminate|].
      destruct (c =? ".")%char eqn:E2;
        [apply Ascii.eqb_eq in E2; subst; discriminate|].
      reflexivity.
    + apply is_hyphen_eq in Hc. now subst.
Qed.

(** ** What a slug keeps of the text *)

Lemma keep_keep (p q : ascii -> bool) (s : string) :
  (forall c, p c = true -> q c = true) -> keep p (keep q s) = keep p s.
Proof.
  intros I. induction s as [|c s IH]; simpl; [reflexivity|].
  destruct (q c) eqn:Q; simpl.
  - now rewrite IH.
  - destruct (p c) eqn:P; [|exact IH].
    rewrite (I _ P) in Q. discriminate.
Qed.

Lemma keep_collapse (p q : ascii -> bool) (h : ascii) (b : bool) (s : string) :
  p h = false -> (forall c, q c = true -> p c = false) ->
  keep p (collapse_runs q h b s) = keep p s.
Proof.
  intros Hh I. revert b. induction s as [|c s IH]; intros b; simpl; [reflexivity|].
  destruct (q c) eqn:Q.
  - rewrite (I _ Q). destruct b; simpl; rewrite ?Hh; apply IH.
  - simpl. now rewrite IH.
Qed.

Lemma keep_trim_leading (p : ascii -> bool) (s : string) :
  p hyphen = false -> keep p (trim_leading s) = keep p s.
Proof.
  intros Hh. induction s as [|c s IH]; simpl; [reflexivity|].
  destruct (is_hyphen c) eqn:E; [|reflexivity].
  apply is_hyphen_eq in E. subst. now rewrite Hh.
Qed.

Lemma keep_trim_trailing (p : ascii -> bool) (s : string) :
  p hyphen = false -> keep p (trim_trailing s) = keep p s.
Proof.
  intros Hh. induction s as [|c s IH]; simpl; [reflexivity|].
  rewrite <- IH. destruct (trim_trailing s) as [|y t].
  - destruct (is_hyphen c) eqn:E.
    + apply is_hyphen_eq in E. subst. now rewrite Hh.
    + reflexivity.
  - reflexivity.
Qed.

Lemma keep_word_lower (s : string) :
  keep is_word (lower s) = lower (keep is_word s).
Proof.
  induction s as [|c s IH]; simpl; [reflexivity|].
  rewrite is_word_lower_char. destruct (is_word c); simpl; now rewrite IH.
Qed.

Lemma space_not_word (c : ascii) : is_space c = true -> is_word c = false.
Proof.
  intros H. destruct (is_word c) eqn:W; [|reflexivity].
  rewrite (word_not_space _ W) in H. discriminate.
Qed.

Lemma hyphen_not_word (c : ascii) : is_hyphen c = true -> is_word c = false.
Proof. intros H. apply is_hyphen_eq in H. now subst. Qed.

Lemma keep_empty (p : ascii -> bool) (s : string) :
  keep p s = "" <-> all_chars (fun c => negb (p c)) s = true.
Proof.
  induction s as [|c s IH]; simpl; [tauto|].
  destruct (p c); simpl; [split; discriminate | exact IH].
Qed.

Lemma lower_empty (s : string) : lower s = "" <-> s = "".
Proof. destruct s; simpl; split; congruence. Qed.

(** X14. The word characters of a slug are the word characters of the
    lowercased text, in the same order: after lowercasing, slugify drops
    or replaces by hyphens only what is not a word character.  So the
    slug is empty exactly when the text has no word character. *)
Theorem slugify_keeps_the_words (text : string) :
  keep is_word (slugify text) = keep is_word (lower text) /\
  (slugify text = "" <->
   all_chars (fun c => negb (is_word c)) text = true).
Proof.
  assert (K : keep is_word (slugify text) = keep is_word (lower text)).
  { rewrite slugify_eq_policy. unfold slugify_policy.
    rewrite keep_trim_trailing, keep_trim_leading by reflexivity.
    rewrite keep_collapse;
      [|reflexivity | exact hyphen_not_word].
    rewrite keep_collapse;
      [|reflexivity | exact space_not_word].
    apply keep_keep.
    intros c H. unfold retainable. now rewrite H. }
  split; [exact K|]. split.
  - intros E. rewrite E, keep_word_lower in K. simpl in K. symmetry in K.
    apply (proj1 (lower_empty _)) in K.
    exact (proj1 (keep_empty is_word text) K).
  - intros H. rewrite slugify_eq_policy. now apply slugify_policy_no_word.
Qed.

(** ** Texts with the same slug *)

Lemma lower_lower (s : string) : lower (lower s) = lower s.
Proof.
  induction s as [|c s IH]; simpl; [reflexivity|].
  now rewrite lower_char_idem, IH.
Qed.

Lemma length_keep (p : ascii -> bool) (s : string) :
  String.length (keep p s) <= String.length s.
Proof.
  induction s as [|c s IH]; simpl; [lia|].
  destruct (p c); simpl; lia.
Qed.

Lemma length_collapse (p : ascii -> bool) (h : ascii) (b : bool) (s : string) :
  String.length (collapse_runs p h b s) <= String.length s.
Proof.
  revert b. induction s as [|c s IH]; intros b; simpl; [lia|].
  pose proof (IH true). pose proof (IH false).
  destruct (p c); [destruct b|]; simpl; lia.
Qed.

Lemma length_trim_leading (s : string) :
  String.length (trim_leading s) <= String.length s.
Proof.
  induction s as [|c s IH]; simpl; [lia|].
  destruct (is_hyphen c); simpl; lia.
Qed.

Lemma length_trim_trailing (s : string) :
  String.length (trim_trailing s) <= String.length s.
Proof.
  induction s as [|c s IH]; simpl; [lia|].
  destruct (trim_trailing s); [destruct (is_hyphen c)|]; simpl in *; lia.
Qed.

Lemma length_lower (s : string) : String.length (lower s) = String.length s.
Proof. induction s as [|c s IH]; simpl; [reflexivity | now rewrite IH]. Qed.

(** X15. Lowercasing a text before it is given to slugify changes
    nothing, and texts with the same lowercase form have the same slug;
    a slug is never longer than the text. *)
Theorem slugify_collisions_and_length (text : string) :
  slugify (lower text) = slugify text /\
  (forall other, lower other = lower text -> slugify other = slugify text) /\
  String.length (slugify text) <= String.length text.
Proof.
  split; [|split].
  - unfold slugify. now rewrite lower_lower.
  - intros other H. unfold slugify. now rewrite H.
  - rewrite slugify_eq_policy. unfold slugify_policy.
    eapply Nat.le_trans; [apply length_trim_trailing|].
    eapply Nat.le_trans; [apply length_trim_leading|].
    eapply Nat.le_trans; [apply length_collapse|].
    eapply Nat.le_trans; [apply length_collapse|].
    eapply Nat.le_trans; [apply length_keep|].
    now rewrite length_lower.
Qed.

(** ** The image tool *)

(** X16. generate_image never raises and returns one of two things: the
    fallback path, alone or followed by a note in parentheses; or a data
    URL, and that only when the key is set, the exchange gave status 200
    and the first prediction has a non-empty bytesBase64Encoded, which
    is then the data of the URL, under its mimeType or "image/png". *)
Theorem generate_image_fallback_or_data_url
    (environ : string -> option string) (send : request -> attempt response)
    (title keyword : string) :
  (exists note, generate_image environ send title keyword = fallback_image ++ note) \/
  (exists key r data predictions prediction encoded,
     environ "GEMINI_API_KEY" = Some key /\ key <> "" /\
     send (imagen_request key title) = Got r /\
     status_code r = 200%Z /\ json_body r = Got data /\
     get_item data "predictions" (JArr [JObj []]) = Got predictions /\
     first_item predictions = Got (JObj prediction) /\
     dict_get prediction "bytesBase64Encoded" = Some encoded /\
     truthy encoded = true /\
     generate_image environ send title keyword =
       "data:"
       ++ str (match dict_get prediction "mimeType" with
               | Some m => m
               | None => JStr "image/png"
               end)
       ++ ";base64," ++ str encoded).
Proof.
  unfold generate_image, getenv.
  destruct (environ "GEMINI_API_KEY") as [key|] eqn:K;
    [|left; exists ""; now rewrite append_empty_r].
  destruct (key =? "")%string eqn:E;
    [left; exists ""; now rewrite append_empty_r|].
  apply String.eqb_neq in E.
  unfold generate_image_try.
  destruct (send (imagen_request key title)) as [r|m] eqn:S; cbn [and_then];
    [|left; eexists; reflexivity].
  destruct (status_code r =? 200)%Z eqn:C; cbn [negb];
    [|left; eexists; reflexivity].
  apply Z.eqb_eq in C.
  destruct (json_body r) as [data|m] eqn:B; cbn [and_then];
    [|left; eexists; reflexivity].
  destruct (get_item data "predictions" (JArr [JObj []])) as [predictions|m] eqn:P;
    cbn [and_then]; [|left; eexists; reflexivity].
  destruct (first_item predictions) as [prediction|m] eqn:F; cbn [and_then];
    [|left; eexists; reflexivity].
  destruct prediction as [| | | | |prediction];
    try (left; eexists; reflexivity).
  cbn [get_item and_then].
  destruct (dict_get prediction "bytesBase64Encoded") as [encoded|] eqn:D;
    [|left; exists ""; now rewrite append_empty_r].
  destruct (truthy encoded) eqn:T;
    [|left; exists ""; now rewrite append_empty_r].
  right. exists key, r, data, predictions, prediction, encoded.
  repeat (split; [assumption || reflexivity|]). reflexivity.
Qed.

(** ** The keyword tools *)

Lemma first_result_missing_tasks (d : dict) :
  dict_get d "tasks" = None -> first_result (JObj d) = Got (JObj []).
Proof. intros H. unfold first_result. simpl. now rewrite H. Qed.

Lemma first_result_empty_tasks (d : dict) :
  dict_get d "tasks" = Some (JArr []) ->
  first_result (JObj d) = Failed "list index out of range".
Proof. intros H. unfold first_result. simpl. now rewrite H. Qed.

Lemma first_result_null_tasks (d : dict) :
  dict_get d "tasks" = Some JNull ->
  first_result (JObj d) = Failed "'NoneType' object is not subscriptable".
Proof. intros H. unfold first_result. simpl. now rewrite H. Qed.

Section Answered.

Variable environ : string -> option string.
Variable send : request -> attempt response.
Variable raise_for_status : response -> option string.
Variable credentials : string * string.
Variable r : response.
Variable data : json.

Hypothesis configured : get_auth environ = Some credentials.
Hypothesis answered : forall rq, send rq = Got r.
Hypothesis accepted : raise_for_status r = None.
Hypothesis parsed : json_body r = Got data.

Lemma search_keywords_answered (keyword : string) (location_code : Z) :
  search_keywords environ send raise_for_status keyword location_code =
  match
    (result <~ first_result data ;;
     if negb (truthy result) then Got ("No data found for keyword: " ++ keyword)
     else
       volume <~ get_item result "search_volume" (JStr "N/A") ;;
       competition <~ get_item result "competition" (JStr "N/A") ;;
       cpc <~ get_item result "cpc" (JStr "N/A") ;;
       Got ("Keyword: " ++ keyword ++ nl
            ++ "Search Volume: " ++ str volume ++ nl
            ++ "Competition: " ++ str competition ++ nl
            ++ "CPC: $" ++ str cpc))
  with
  | Got text => text
  | Failed m => "DataForSEO error: " ++ m
  end.
Proof.
  unfold search_keywords, search_keywords_try, checked.
  rewrite configured, answered. simpl. rewrite accepted. simpl.
  rewrite parsed. reflexivity.
Qed.

Lemma get_related_keywords_answered (keyword : string) (limit : Z) :
  get_related_keywords environ send raise_for_status keyword limit =
  match
    (result <~ first_result data ;;
     items <~ get_item result "items" (JArr []) ;;
     if negb (truthy items) then Got ("No related keywords found for: " ++ keyword)
     else
       taken <~ items_upto limit items ;;
       keywords <~ collect related_line taken ;;
       Got ("Related keywords for '" ++ keyword ++ "':" ++ nl ++ join nl keywords))
  with
  | Got text => text
  | Failed m => "DataForSEO error: " ++ m
  end.
Proof.
  unfold get_related_keywords, get_related_keywords_try, checked.
  rewrite configured, answered. simpl. rewrite accepted. simpl.
  rewrite parsed. reflexivity.
Qed.

Lemma get_trending_topics_answered :
  get_trending_topics environ send raise_for_status =
  match
    (result <~ first_result data ;;
     items <~ get_item result "items" (JArr []) ;;
     if negb (truthy items) then Got "No trending topics found."
     else
       taken <~ items_upto 15 items ;;
       topics <~ collect trending_line taken ;;
       Got ("Trending gin & tonic topics:" ++ nl ++ join nl topics))
  with
  | Got text => text
  | Failed m => "DataForSEO error: " ++ m
  end.
Proof.
  unfold get_trending_topics, get_trending_topics_try, checked.
  rewrite configured, answered. simpl. rewrite accepted. simpl.
  rewrite parsed. reflexivity.
Qed.

End Answered.

(** X17. A response without the key "tasks" is not an error: with
    credentials set and a response that is a JSON object lacking "tasks",
    the three keyword tools return their texts for no data.  An empty
    "tasks" list, and a null one, are errors: the tools return
    "DataForSEO error: " followed by the message of the IndexError, or of
    the TypeError. *)
Theorem keyword_tools_on_missing_and_empty_tasks
    (environ : string -> option string) (send : request -> attempt response)
    (raise_for_status : response -> option string)
    (credentials : string * string) (r : response) (d : dict)
    (keyword : string) (location_code limit : Z) :
  get_auth environ = Some credentials ->
  (forall rq, send rq = Got r) ->
  raise_for_status r = None ->
  json_body r = Got (JObj d) ->
  (dict_get d "tasks" = None ->
   search_keywords environ send raise_for_status keyword location_code
     = "No data found for keyword: " ++ keyword /\
   get_related_keywords environ send raise_for_status keyword limit
     = "No related keywords found for: " ++ keyword /\
   get_trending_topics environ send raise_for_status
     = "No trending topics found.") /\
  (dict_get d "tasks" = Some (JArr []) ->
   search_keywords environ send raise_for_status keyword location_code
     = "DataForSEO error: list index out of range" /\
   get_related_keywords environ send raise_for_status keyword limit
     = "DataForSEO error: list index out of range" /\
   get_trending_topics environ send raise_for_status
     = "DataForSEO error: list index out of range") /\
  (dict_get d "tasks" = Some JNull ->
   search_keywords environ send raise_for_status keyword location_code
     = "DataForSEO error: 'NoneType' object is not subscriptable" /\
   get_related_keywords environ send raise_for_status keyword limit
     = "DataForSEO error: 'NoneType' object is not subscriptable" /\
   get_trending_topics environ send raise_for_status
     = "DataForSEO error: 'NoneType' object is not subscriptable").
Proof.
  intros A S R B.
  rewrite (search_keywords_answered environ send raise_for_status credentials
             r (JObj d) A S R B).
  rewrite (get_related_keywords_answered environ send raise_for_status
             credentials r (JObj d) A S R B).
  rewrite (get_trending_topics_answered environ send raise_for_status
             credentials r (JObj d) A S R B).
  split; [|split]; intros T.
  - rewrite (first_result_missing_tasks _ T). auto.
  - rewrite (first_result_empty_tasks _ T). auto.
  - rewrite (first_result_null_tasks _ T). auto.
Qed.

Lemma keyword_tools_on_missing_and_empty_tasks_witness :
  search_keywords sample_environ (answers (JObj [("tasks", JArr [])]))
    no_status_error "gin" 2840
  = "DataForSEO error: list index out of range".
Proof.
  refine (proj1 (proj1 (proj2
            (keyword_tools_on_missing_and_empty_tasks sample_environ
               (answers (JObj [("tasks", JArr [])])) no_status_error
               ("user", "secret") (Response 200 (Got (JObj [("tasks", JArr [])])))
               [("tasks", JArr [])] "gin" 2840 10 _ _ _ _)) _));
    reflexivity.
Defined.

(** ** How many lines the keyword tools return *)

Lemma collect_length (A B : Type) (f : A -> attempt B) (l : list A) (bs : list B) :
  collect f l = Got bs -> List.length bs = List.length l.
Proof.
  revert bs. induction l as [|a l IH]; simpl; intros bs H.
  - now injection H as <-.
  - destruct (f a); [|discriminate]. simpl in H.
    destruct (collect f l) as [bs'|]; [|discriminate]. simpl in H.
    injection H as <-. simpl. now rewrite (IH bs').
Qed.

Lemma collect_total (A B : Type) (f : A -> attempt B) (l : list A) :
  forallb (fun a => match f a with Got _ => true | Failed _ => false end) l = true ->
  exists bs, collect f l = Got bs.
Proof.
  induction l as [|a l IH]; simpl; [eauto|].
  intros H. apply andb_true_iff in H as [H1 H2].
  destruct (f a); [|discriminate]. destruct (IH H2) as [bs ->]. simpl. eauto.
Qed.

Lemma length_upto (A : Type) (n : Z) (l : list A) :
  List.length (upto n l) =
  if (n <? 0)%Z then List.length l - Z.to_nat (- n)
  else Nat.min (Z.to_nat n) (List.length l).
Proof.
  unfold upto. destruct (n <? 0)%Z; rewrite length_firstn; lia.
Qed.

Lemma forallb_firstn (A : Type) (p : A -> bool) (n : nat) (l : list A) :
  forallb p l = true -> forallb p (firstn n l) = true.
Proof.
  revert n. induction l as [|a l IH]; intros [|n]; simpl; auto.
  intros H. apply andb_true_iff in H as [H1 H2]. now rewrite H1, IH.
Qed.

Lemma forallb_upto (A : Type) (p : A -> bool) (n : Z) (l : list A) :
  forallb p l = true -> forallb p (upto n l) = true.
Proof. unfold upto. destruct (n <? 0)%Z; apply forallb_firstn. Qed.

(** X18. When the first result of the response has a non-empty list of
    items that all have a line, get_related_keywords returns its heading
    followed by one line for each item of items[:limit]: the first
    [limit] items at most for a limit of zero or more (none for zero, the
    heading alone), and all but the last [-limit] for a negative limit. *)
Theorem get_related_keywords_lines
    (environ : string -> option string) (send : request -> attempt response)
    (raise_for_status : response -> option string)
    (credentials : string * string) (r : response) (data result : json)
    (item : json) (items : list json) (keyword : string) (limit : Z) :
  get_auth environ = Some credentials ->
  (forall rq, send rq = Got r) ->
  raise_for_status r = None ->
  json_body r = Got data ->
  first_result data = Got result ->
  get_item result "items" (JArr []) = Got (JArr (item :: items)) ->
  forallb has_related_line (item :: items) = true ->
  exists lines,
    collect related_line (upto limit (item :: items)) = Got lines /\
    get_related_keywords environ send raise_for_status keyword limit
      = "Related keywords for '" ++ keyword ++ "':" ++ nl ++ join nl lines /\
    List.length lines =
      (if (limit <? 0)%Z then List.length (item :: items) - Z.to_nat (- limit)
       else Nat.min (Z.to_nat limit) (List.length (item :: items))).
Proof.
  intros A S R B F I W.
  destruct (collect_total _ _ related_line (upto limit (item :: items)))
    as [lines C].
  { now apply forallb_upto. }
  exists lines. split; [exact C|]. split.
  - rewrite (get_related_keywords_answered environ send raise_for_status
               credentials r data A S R B).
    rewrite F. simpl. rewrite I. simpl.
    change (collect related_line (upto limit (item :: items))) with
      (collect related_line (upto limit (item :: items))).
    now rewrite C.
  - rewrite (collect_length _ _ _ _ _ C). apply length_upto.
Qed.

Lemma get_related_keywords_lines_witness :
  exists lines,
    collect related_line (upto 2 three_items) = Got lines /\
    get_related_keywords sample_environ (answers (body_with_items three_items))
      no_status_error "gin" 2
      = "Related keywords for 'gin':" ++ nl ++ join nl lines /\
    List.length lines = 2.
Proof.
  exact (get_related_keywords_lines sample_environ
           (answers (body_with_items three_items)) no_status_error
           ("user", "secret") (Response 200 (Got (body_with_items three_items)))
           (body_with_items three_items)
           (JObj [("items", JArr three_items)])
           (JObj [("keyword", JStr "gin");
                  ("keyword_data",
                   JObj [("keyword", JStr "gin");
                         ("keyword_info", JObj [("search_volume", JNum 900)])])])
           [JObj []; JObj [("keyword", JStr "tonic")]] "gin" 2
           eq_refl (fun _ => eq_refl) eq_refl eq_refl eq_refl eq_refl eq_refl).
Defined.

(** X19. When the first result of the response has a non-empty list of
    items that all have a line, get_trending_topics returns its heading
    followed by one line for each of the first fifteen items, and no
    more. *)
Theorem get_trending_topics_lines
    (environ : string -> option string) (send : request -> attempt response)
    (raise_for_status : response -> option string)
    (credentials : string * string) (r : response) (data result : json)
    (item : json) (items : list json) :
  get_auth environ = Some credentials ->
  (forall rq, send rq = Got r) ->
  raise_for_status r = None ->
  json_body r = Got data ->
  first_result data = Got result ->
  get_item result "items" (JArr []) = Got (JArr (item :: items)) ->
  forallb has_trending_line (item :: items) = true ->
  exists lines,
    collect trending_line (firstn 15 (item :: items)) = Got lines /\
    get_trending_topics environ send raise_for_status
      = "Trending gin & tonic topics:" ++ nl ++ join nl lines /\
    List.length lines = Nat.min 15 (List.length (item :: items)).
Proof.
  intros A S R B F I W.
  destruct (collect_total _ _ trending_line (firstn 15 (item :: items)))
    as [lines C].
  { now apply forallb_firstn. }
  exists lines. split; [exact C|]. split.
  - rewrite (get_trending_topics_answered environ send raise_for_status
               credentials r data A S R B).
    rewrite F. simpl and_then. rewrite I.
    cbn [and_then truthy negb items_upto].
    change (upto 15 (item :: items)) with (firstn 15 (item :: items)).
    now rewrite C.
  - rewrite (collect_length _ _ _ _ _ C). apply length_firstn.
Qed.

Lemma get_trending_topics_lines_witness :
  exists lines,
    collect trending_line (firstn 15 three_items) = Got lines /\
    get_trending_topics sample_environ (answers (body_with_items three_items))
      no_status_error
      = "Trending gin & tonic topics:" ++ nl ++ join nl lines /\
    List.length lines = 3.
Proof.
  exact (get_trending_topics_lines sample_environ
           (answers (body_with_items three_items)) no_status_error
           ("user", "secret") (Response 200 (Got (body_with_items three_items)))
           (body_with_items three_items)
           (JObj [("items", JArr three_items)])
           (JObj [("keyword", JStr "gin");
                  ("keyword_data",
                   JObj [("keyword", JStr "gin");
                         ("keyword_info", JObj [("search_volume", JNum 900)])])])
           [JObj []; JObj [("keyword", JStr "tonic")]]
           eq_refl (fun _ => eq_refl) eq_refl eq_refl eq_refl eq_refl eq_refl).
Defined.

(** X20. Without credentials nothing is sent: get_auth gives credentials
    only when DATAFORSEO_LOGIN and DATAFORSEO_PASSWORD are both set and
    not empty, and otherwise the three keyword tools return their fixed
    texts whatever the network would answer; without GEMINI_API_KEY
    generate_image returns the fallback path likewise. *)
Theorem tools_without_credentials
    (environ : string -> option string) (send : request -> attempt response)
    (raise_for_status : response -> option string) :
  (get_auth environ <> None <->
   exists login password,
     environ "DATAFORSEO_LOGIN" = Some login /\ login <> "" /\
     environ "DATAFORSEO_PASSWORD" = Some password /\ password <> "") /\
  (get_auth environ = None ->
   forall keyword location_code limit,
     search_keywords environ send raise_for_status keyword location_code
       = "DataForSEO credentials not configured. Skipping keyword research." /\
     get_related_keywords environ send raise_for_status keyword limit
       = "DataForSEO credentials not configured." /\
     get_trending_topics environ send raise_for_status
       = "Trending topics (default list):" ++ nl
         ++ join nl (map (fun topic => "- " ++ topic) default_topics)) /\
  (getenv environ "GEMINI_API_KEY" "" = "" ->
   forall title keyword,
     generate_image environ send title keyword = fallback_image).
Proof.
  split; [|split].
  - unfold get_auth, getenv.
    destruct (environ "DATAFORSEO_LOGIN") as [login|];
      destruct (environ "DATAFORSEO_PASSWORD") as [password|]; simpl.
    + destruct (login =? "")%string eqn:L; destruct (password =? "")%string eqn:P;
        simpl; rewrite ?String.eqb_eq, ?String.eqb_neq in *.
      * split; [congruence|]. intros (l & p & [= <-] & N & _). congruence.
      * split; [congruence|]. intros (l & p & [= <-] & N & _). congruence.
      * split; [congruence|]. intros (l & p & _ & _ & [= <-] & N). congruence.
      * split; [|discriminate]. intros _. exists login, password. auto.
    + destruct (login =? "")%string; simpl;
        (split; [congruence | intros (l & p & _ & _ & [=] & _)]).
    + split; [congruence | intros (l & p & [=] & _)].
    + split; [congruence | intros (l & p & [=] & _)].
  - intros A keyword location_code limit.
    unfold search_keywords, get_related_keywords, get_trending_topics.
    rewrite A. auto.
  - intros K title keyword. unfold generate_image. now rewrite K.
Qed.
